(** * Soryn License Panel: the backup parser and the bulk restore route

    A shallow embedding of the backend server of the panel
    (functions [parseDurationFromKeyName], [parseBackupText], the routes
    [/api/restore], [/api/restore/status], [/api/restore/stop] and
    [/api/parse-backup], and the module variable [restoreStatus]).

    - JavaScript strings are lists of UTF-16 code units ([list N]).
    - JavaScript values coming from [JSON.parse] and from request bodies are
      the inductive [JSValue].
    - Code that can throw returns a [Completion].
    - The async route [/api/restore] is a machine that runs from one [await]
      to the next; the pending invocations of the route live in a finite map
      so that requests and timer or network completions can interleave the
      way the Node event loop interleaves them. *)

From Stdlib Require Import NArith ZArith Lia Ascii String List Bool.
From stdpp Require Import base option list gmap.
Import ListNotations.

Set Warnings "-register-all".

Local Open Scope string_scope.
Local Open Scope list_scope.
Local Open Scope nat_scope.

(** ** Strings *)

Module JsString.

(** UTF-16 code units. *)
Definition t : Type := list N.

(** An ASCII literal of the source, as code units. *)
Definition lit (s : string) : t :=
  List.map N_of_ascii (list_ascii_of_string s).

Fixpoint eqb (a b : t) : bool :=
  match a, b with
  | [], [] => true
  | x :: a', y :: b' => N.eqb x y && eqb a' b'
  | _, _ => false
  end.

(** [s.startsWith(pre)] *)
Fixpoint startsWith (s pre : t) {struct pre} : bool :=
  match pre, s with
  | [], _ => true
  | p :: pre', c :: s' => N.eqb c p && startsWith s' pre'
  | _ :: _, [] => false
  end.

(** [s.includes(sub)] *)
Fixpoint includes (s sub : t) : bool :=
  startsWith s sub ||
  match s with
  | [] => false
  | _ :: s' => includes s' sub
  end.

(** WhiteSpace and LineTerminator code units of ECMAScript: what
    [String.prototype.trim] strips and what [\s] matches. *)
Definition isWhiteSpace (c : N) : bool :=
  ((9 <=? c) && (c <=? 13) || (c =? 32) || (c =? 160) || (c =? 5760)
   || (8192 <=? c) && (c <=? 8202) || (c =? 8232) || (c =? 8233)
   || (c =? 8239) || (c =? 8287) || (c =? 12288) || (c =? 65279))%N.

Fixpoint trimStart (s : t) : t :=
  match s with
  | c :: s' => if isWhiteSpace c then trimStart s' else s
  | [] => []
  end.

Definition trimEnd (s : t) : t := rev (trimStart (rev s)).

(** [s.trim()] *)
Definition trim (s : t) : t := trimEnd (trimStart s).

(** [s.split('\n')]; [cur] is the piece being read. *)
Fixpoint splitLines_from (cur s : t) : list t :=
  match s with
  | [] => [cur]
  | c :: s' =>
      if (c =? 10)%N then cur :: splitLines_from [] s'
      else splitLines_from (cur ++ [c]) s'
  end.

Definition splitLines (s : t) : list t := splitLines_from [] s.

(** [s.split(/\s{2,}/)]: the regular expression is greedy, so a separator
    is a maximal run of at least two white space units; a single white
    space unit stays inside its piece. [cur] is the piece being read and
    [ws] the white space run read after it. *)
Fixpoint splitColumns_from (cur ws s : t) : list t :=
  match s with
  | [] => if 2 <=? length ws then [cur; []] else [cur ++ ws]
  | c :: s' =>
      if isWhiteSpace c then splitColumns_from cur (ws ++ [c]) s'
      else if 2 <=? length ws then cur :: splitColumns_from [c] [] s'
      else splitColumns_from (cur ++ ws ++ [c]) [] s'
  end.

Definition splitColumns (s : t) : list t := splitColumns_from [] [] s.

Definition isDigit (c : N) : bool := ((48 <=? c) && (c <=? 57))%N.

(** [/^\d+$/.test(s)] *)
Definition allDigits (s : t) : bool :=
  match s with
  | [] => false
  | _ => forallb isDigit s
  end.

Definition isAscii (c : N) : bool := (c <? 128)%N.

(** Box Drawing block, U+2500 to U+257F: no unit of it has a case. *)
Definition isBoxDrawing (c : N) : bool := ((9472 <=? c) && (c <=? 9599))%N.

(** Units on which lower-casing is known here: ASCII and box drawing. *)
Definition isPlain (c : N) : bool := isAscii c || isBoxDrawing c.

(** Lower-casing of one plain unit: [A-Z] to [a-z], the rest unchanged. *)
Definition lowerUnit (c : N) : N :=
  if ((65 <=? c) && (c <=? 90))%N then (c + 32)%N else c.

End JsString.

Abbreviation jsstring := JsString.t.
Abbreviation lit := JsString.lit.

(** ** Values *)

(** What [JSON.parse] and a JSON request body can hold, [undefined], and the
    one built-in function object the routes can get hold of
    ([Array.prototype.keys], through [json.keys] on an array). Objects keep
    their properties in order; the first binding of a name is the one read.
    Numbers are integers here: the routes only test a number for being zero
    and pass it on. *)
Inductive JSValue : Type :=
| VUndefined
| VNull
| VBool (b : bool)
| VNum (n : Z)
| VStr (s : jsstring)
| VArr (items : list JSValue)
| VObj (props : list (jsstring * JSValue))
| VFun (name : jsstring).

(** Outcome of an expression or statement: a value or a thrown [Error]
    with its [message]. *)
Inductive Completion (A : Type) : Type :=
| Normal (a : A)
| Throw (message : jsstring).
Arguments Normal {A} a.
Arguments Throw {A} message.

#[global] Instance completion_ret : MRet Completion := fun A a => Normal a.

#[global] Instance completion_bind : MBind Completion := fun A B k c =>
  match c with
  | Normal a => k a
  | Throw m => Throw m
  end.

(** ** The host

    Built-ins of the JavaScript engine that the server calls and that are
    not code of the repository. Lower-casing is only known on plain units
    (and an ASCII stretch of a string is lower-cased unit by unit whatever
    surrounds it); [JSON.parse] and the text of a [TypeError] are left
    open. *)
Class Host : Type := {
  toLowerCase : jsstring -> jsstring;
  toLowerCase_plain : forall s,
    forallb JsString.isPlain s = true ->
    toLowerCase s = List.map JsString.lowerUnit s;
  toLowerCase_infix : forall a b c,
    forallb JsString.isAscii b = true ->
    exists a' c',
      toLowerCase (a ++ b ++ c) = a' ++ List.map JsString.lowerUnit b ++ c';
  (** [JSON.parse(v)]; [None] is a [SyntaxError]. *)
  JSON_parse : JSValue -> option JSValue;
  (** [message] of the [TypeError] for reading or calling property [p] of [v]. *)
  typeError : JSValue -> jsstring -> jsstring
}.

(** A host that lower-cases ASCII only; [parse] is its [JSON.parse]. *)
Program Definition asciiHost (parse : JSValue -> option JSValue) : Host :=
  {| toLowerCase := List.map JsString.lowerUnit;
     JSON_parse := parse;
     typeError := fun _ p => lit "Cannot read properties (reading '" ++ p ++ lit "')" |}.
Next Obligation. reflexivity. Qed.
Next Obligation.
  intros _ a b c _. exists (List.map JsString.lowerUnit a), (List.map JsString.lowerUnit c).
  now rewrite !List.map_app.
Qed.

Section Values.

Context {host : Host}.

(** [ToBoolean] *)
Definition truthy (v : JSValue) : bool :=
  match v with
  | VUndefined | VNull => false
  | VBool b => b
  | VNum n => negb (n =? 0)%Z
  | VStr s => match s with [] => false | _ => true end
  | VArr _ | VObj _ | VFun _ => true
  end.

Definition isArray (v : JSValue) : bool :=
  match v with
  | VArr _ => true
  | _ => false
  end.

Fixpoint lookupProp (p : jsstring) (props : list (jsstring * JSValue)) : JSValue :=
  match props with
  | [] => VUndefined
  | (q, v) :: rest => if JsString.eqb q p then v else lookupProp p rest
  end.

(** [v.p] for the property names the routes read ([licenses], [keys],
    [wipeFirst], [content], [key], [duration], [level], [success],
    [message]): an own property of an object; on an array [keys] is the
    inherited method and the others are absent; absent on the other
    values; a [TypeError] on [undefined] and [null]. *)
Definition getProp (v : JSValue) (p : jsstring) : Completion JSValue :=
  match v with
  | VUndefined | VNull => Throw (typeError v p)
  | VObj props => Normal (lookupProp p props)
  | VArr _ =>
      if JsString.eqb p (lit "keys") then Normal (VFun (lit "keys"))
      else Normal VUndefined
  | VBool _ | VNum _ | VStr _ | VFun _ => Normal VUndefined
  end.

(** [a || b] *)
Definition or_else (a b : JSValue) : JSValue := if truthy a then a else b.

(** [v.toLowerCase()]: only strings have the method. *)
Definition call_toLowerCase (v : JSValue) : Completion jsstring :=
  match v with
  | VStr s => Normal (toLowerCase s)
  | _ => Throw (typeError v (lit "toLowerCase"))
  end.

End Values.

(** ** Durations and the text backup parser *)

Section Parser.

Context {host : Host}.

(** [parseDurationFromKeyName(keyName)] *)
Definition parseDurationFromKeyName (keyName : JSValue) : Completion Z :=
  lower ← call_toLowerCase keyName;
  if JsString.includes lower (lit "lifetime") then Normal 999999999%Z
  else if JsString.includes lower (lit "1month") || JsString.includes lower (lit "-1m")
    then Normal 2592000%Z
  else if JsString.includes lower (lit "1week") || JsString.includes lower (lit "-1w")
    then Normal 604800%Z
  else if JsString.includes lower (lit "1day") || JsString.includes lower (lit "-1d")
    then Normal 86400%Z
  else if JsString.includes lower (lit "1year") || JsString.includes lower (lit "-1y")
    then Normal 31536000%Z
  else Normal 999999999%Z.

(** The five border prefixes tested by [parseBackupText], unit for unit as
    the source file spells them: U+00E2 U+201D followed by U+20AC, U+0152,
    U+201A, U+201D and U+0153 (the box drawing glyphs U+2500, U+250C,
    U+2502, U+2514 and U+251C read through code page 1252). *)
Definition borderPrefixes : list jsstring :=
  [ [226; 8221; 8364]; [226; 8221; 338]; [226; 8221; 8218];
    [226; 8221; 8221]; [226; 8221; 339] ]%N.

(** The condition of the [continue] in the loop of [parseBackupText]. *)
Definition skippedLine (trimmed : jsstring) : bool :=
  match trimmed with [] => true | _ => false end
  || existsb (JsString.startsWith trimmed) borderPrefixes
  || JsString.startsWith trimmed (lit "Key")
  || JsString.includes trimmed (lit "license(s):")
  || JsString.includes trimmed (lit "MAIN MENU")
  || JsString.includes trimmed (lit "Select option").

(** [{ key, status, level, duration }] *)
Definition licenseObject (key status level : jsstring) (duration : Z) : JSValue :=
  VObj [ (lit "key", VStr key); (lit "status", VStr status);
         (lit "level", VStr level); (lit "duration", VNum duration) ].

(** One turn of the loop of [parseBackupText]: the records pushed for [line]. *)
Definition parseLine (line : jsstring) : Completion (list JSValue) :=
  let trimmed := JsString.trim line in
  if skippedLine trimmed then Normal []
  else
    let parts := JsString.splitColumns trimmed in
    match parts with
    | [] => Normal []
    | part0 :: _ =>
        let key := JsString.trim part0 in
        if JsString.startsWith (toLowerCase key) (lit "soryn") then
          let status :=
            match parts !! 1 with
            | Some part1 => JsString.trim part1
            | None => lit "Not Used"
            end in
          let level :=
            match parts !! 2 with
            | Some part2 =>
                if JsString.allDigits (JsString.trim part2)
                then JsString.trim part2 else lit "1"
            | None => lit "1"
            end in
          duration ← parseDurationFromKeyName (VStr key);
          Normal [licenseObject key status level duration]
        else Normal []
    end.

Fixpoint parseLines (lines : list jsstring) (licenses : list JSValue)
  : Completion (list JSValue) :=
  match lines with
  | [] => Normal licenses
  | line :: rest =>
      pushed ← parseLine line;
      parseLines rest (licenses ++ pushed)
  end.

(** [parseBackupText(content)]; [content.split] needs a string. *)
Definition parseBackupText (content : JSValue) : Completion (list JSValue) :=
  match content with
  | VStr s => parseLines (JsString.splitLines s) []
  | _ => Throw (typeError content (lit "split"))
  end.

End Parser.

(** ** The restore job *)

(** The module variable [restoreStatus]. *)
Record RestoreStatus : Type := Status {
  running : bool;
  total : nat;
  processed : nat;
  success : nat;
  skipped : nat;
  failed : nat;
  currentKey : JSValue;
  error : option jsstring
}.

Definition set_running (b : bool) (st : RestoreStatus) : RestoreStatus :=
  Status b (total st) (processed st) (success st) (skipped st) (failed st)
         (currentKey st) (error st).

Definition set_processed (n : nat) (st : RestoreStatus) : RestoreStatus :=
  Status (running st) (total st) n (success st) (skipped st) (failed st)
         (currentKey st) (error st).

Definition incr_success (st : RestoreStatus) : RestoreStatus :=
  Status (running st) (total st) (processed st) (S (success st)) (skipped st)
         (failed st) (currentKey st) (error st).

Definition incr_skipped (st : RestoreStatus) : RestoreStatus :=
  Status (running st) (total st) (processed st) (success st) (S (skipped st))
         (failed st) (currentKey st) (error st).

Definition incr_failed (st : RestoreStatus) : RestoreStatus :=
  Status (running st) (total st) (processed st) (success st) (skipped st)
         (S (failed st)) (currentKey st) (error st).

Definition set_currentKey (k : JSValue) (st : RestoreStatus) : RestoreStatus :=
  Status (running st) (total st) (processed st) (success st) (skipped st)
         (failed st) k (error st).

Definition set_error (e : option jsstring) (st : RestoreStatus) : RestoreStatus :=
  Status (running st) (total st) (processed st) (success st) (skipped st)
         (failed st) (currentKey st) e.

(** The value [restoreStatus] is initialised with. *)
Definition initialStatus : RestoreStatus :=
  Status false 0 0 0 0 0 (VStr []) None.

(** The value the route assigns when it accepts a request ("Reset status"). *)
Definition resetStatus (n : nat) : RestoreStatus :=
  Status true n 0 0 0 0 (VStr []) None.

(** A call of [makeKeyAuthRequest], by its [type] parameter; for [add] the
    values that go into [key], [expiry] and [level]. *)
Inductive UpstreamCall : Type :=
| DelAllKeys
| DelAllUsers
| AddKey (key duration level : JSValue).

(** How the promise of [makeKeyAuthRequest] settles: with the parsed body of
    the reply, or with an [Error] (connection failure, or a body that is not
    JSON). *)
Inductive Outcome : Type :=
| Resolved (result : JSValue)
| Rejected (message : jsstring).

(** The [await]s of the route [/api/restore], with the locals that are live
    across them: the index [i], [retries] and [params]. *)
Inductive Await : Type :=
| AwaitWipeKeys
| AwaitSleepWipeKeys
| AwaitWipeUsers
| AwaitSleepWipeUsers
| AwaitAdd (i : nat) (retries : Z) (params : UpstreamCall)
| AwaitSleepRate (i : nat) (retries : Z) (params : UpstreamCall)
| AwaitSleepError (i : nat) (retries : Z) (params : UpstreamCall)
| AwaitSleepItem (i : nat)
| AwaitSleepBatch (i : nat).

(** The upstream call made right before suspending at an [await]. *)
Definition issued (point : Await) : option UpstreamCall :=
  match point with
  | AwaitWipeKeys => Some DelAllKeys
  | AwaitWipeUsers => Some DelAllUsers
  | AwaitAdd _ _ params => Some params
  | _ => None
  end.

(** Where a run of the route from one [await] gets to: the next [await], or
    the end of the handler. Both carry [restoreStatus] as the run left it. *)
Inductive Step : Type :=
| Suspended (st : RestoreStatus) (point : Await)
| Finished (st : RestoreStatus).

(** What the try block of the retry loop does with a reply. *)
Inductive Verdict : Type :=
| Counted (st : RestoreStatus)
| Backoff.

Section Route.

Context {host : Host}.

(** The [catch] of the route as far as [restoreStatus] goes. *)
Definition catch_handler (message : jsstring) (st : RestoreStatus) : RestoreStatus :=
  set_error (Some message) (set_running false st).

(** The two assignments after the [for] loop. *)
Definition finish (st : RestoreStatus) : Step :=
  Finished (set_currentKey (VStr (lit "Complete")) (set_running false st)).

(** [ToString] of a value, as far as it can throw: an object with an own
    [toString] property (never callable in JSON data) cannot be converted;
    an array converts its items. *)
Fixpoint stringifies (v : JSValue) : bool :=
  match v with
  | VObj props => negb (existsb (fun b => JsString.eqb (fst b) (lit "toString")) props)
  | VArr items => forallb stringifies items
  | _ => true
  end.

(** [license.key], [license.duration || parseDurationFromKeyName(key)],
    [license.level || '1']. *)
Definition readLicense (license : JSValue)
  : Completion (JSValue * JSValue * JSValue) :=
  key ← getProp license (lit "key");
  d ← getProp license (lit "duration");
  duration ← (if truthy d then Normal d
              else n ← parseDurationFromKeyName key; Normal (VNum n));
  l ← getProp license (lit "level");
  Normal (key, duration, or_else l (VStr (lit "1"))).

(** [new URLSearchParams({ ..., key, expiry: duration.toString(), level })] *)
Definition makeParams (key duration level : JSValue) : Completion UpstreamCall :=
  if stringifies duration && stringifies key && stringifies level
  then Normal (AddKey key duration level)
  else Throw (typeError duration (lit "toString")).

(** The test of [while (retries > 0 && !added)] and what follows either way:
    the call of [makeKeyAuthRequest(params)], or the pause after the loop. *)
Definition while_head (i : nat) (retries : Z) (added : bool)
    (params : UpstreamCall) (st : RestoreStatus) : Step :=
  if (0 <? retries)%Z && negb added
  then Suspended st (AwaitAdd i retries params)
  else Suspended st (AwaitSleepItem i).

(** The [for] loop from its test at index [i] to the first [await]. *)
Definition for_head (licenses : list JSValue) (i : nat) (st : RestoreStatus) : Step :=
  if i <? length licenses then
    if negb (running st) then
      finish (set_error (Some (lit "Stopped by user")) st)
    else
      match readLicense (default VUndefined (licenses !! i)) with
      | Throw m => Finished (catch_handler m st)
      | Normal (key, duration, level) =>
          let st := set_processed (i + 1) (set_currentKey key st) in
          match makeParams key duration level with
          | Throw m => Finished (catch_handler m st)
          | Normal params => while_head i 3 false params st
          end
      end
  else finish st.

(** The body of the inner [try], given the reply [result]. *)
Definition add_verdict (result : JSValue) (st : RestoreStatus) : Completion Verdict :=
  ok ← getProp result (lit "success");
  if truthy ok then Normal (Counted (incr_success st))
  else
    message ← getProp result (lit "message");
    if truthy message then
      msg ← call_toLowerCase message;
      if JsString.includes msg (lit "already") || JsString.includes msg (lit "exists")
         || JsString.includes msg (lit "duplicate")
      then Normal (Counted (incr_skipped st))
      else if JsString.includes msg (lit "rate") || JsString.includes msg (lit "limit")
              || JsString.includes msg (lit "slow")
      then Normal Backoff
      else Normal (Counted (incr_failed st))
    else Normal (Counted (incr_failed st)).

(** The route from the [await] at [point], settled with [outcome], to the
    next [await]. [st] is [restoreStatus] when the route resumes. A timer
    carries no value: the [sleep] points ignore [outcome]. *)
Definition resume (licenses : list JSValue) (point : Await) (outcome : Outcome)
    (st : RestoreStatus) : Step :=
  match point with
  | AwaitWipeKeys =>
      match outcome with
      | Resolved _ => Suspended st AwaitSleepWipeKeys
      | Rejected m => Finished (catch_handler m st)
      end
  | AwaitSleepWipeKeys => Suspended st AwaitWipeUsers
  | AwaitWipeUsers =>
      match outcome with
      | Resolved _ => Suspended st AwaitSleepWipeUsers
      | Rejected m => Finished (catch_handler m st)
      end
  | AwaitSleepWipeUsers => for_head licenses 0 st
  | AwaitAdd i retries params =>
      match outcome with
      | Resolved result =>
          match add_verdict result st with
          | Normal (Counted st') => while_head i retries true params st'
          | Normal Backoff => Suspended st (AwaitSleepRate i retries params)
          | Throw _ => Suspended st (AwaitSleepError i retries params)
          end
      | Rejected _ => Suspended st (AwaitSleepError i retries params)
      end
  | AwaitSleepRate i retries params =>
      while_head i (retries - 1) false params st
  | AwaitSleepError i retries params =>
      let retries := (retries - 1)%Z in
      let st := if (retries =? 0)%Z then incr_failed st else st in
      while_head i retries false params st
  | AwaitSleepItem i =>
      if (i + 1) mod 20 =? 0 then Suspended st (AwaitSleepBatch i)
      else for_head licenses (i + 1) st
  | AwaitSleepBatch i => for_head licenses (i + 1) st
  end.

End Route.

(** ** The server *)

(** An invocation of the route [/api/restore] suspended at an [await]: the
    [licenses] of its request and where it waits. *)
Record Task : Type := {
  licenses : list JSValue;
  point : Await
}.

(** The state of the process: the module variables [SELLER_KEY] ([null], or
    the key string fetched at start-up) and [restoreStatus], the suspended
    invocations of the restore route by
    arrival number, and (for the statements only) the calls made to the
    licensing service, oldest first. The invocations do not hold
    [restoreStatus]: each reads the module variable when it resumes. *)
Record World : Type := {
  SELLER_KEY : option jsstring;
  restoreStatus : RestoreStatus;
  pending : gmap nat Task;
  nextId : nat;
  upstream : list UpstreamCall
}.

(** A reply of the server, by route. [RLicenses] holds the value handed to
    [res.json] under [licenses], whatever it is. *)
Inductive Response : Type :=
| RStatus (st : RestoreStatus)
| RSuccess
| RStarted (total : nat)
| RFailure (error : jsstring)
| RLicenses (licenses : JSValue) (format : jsstring).

(** What the event loop delivers: a request, or the settling of the promise
    an invocation waits for. *)
Inductive Event : Type :=
| GetStatus
| PostStop
| PostRestore (body : JSValue)
| Settle (id : nat) (outcome : Outcome).

Section Server.

Context {host : Host}.

Definition with_status (st : RestoreStatus) (w : World) : World :=
  {| SELLER_KEY := SELLER_KEY w; restoreStatus := st; pending := pending w;
     nextId := nextId w; upstream := upstream w |}.

(** Records where invocation [id] got to. *)
Definition install (id : nat) (items : list JSValue) (s : Step) (w : World) : World :=
  match s with
  | Suspended st at_ =>
      {| SELLER_KEY := SELLER_KEY w; restoreStatus := st;
         pending := <[id := {| licenses := items; point := at_ |}]> (pending w);
         nextId := nextId w;
         upstream := upstream w ++ option_list (issued at_) |}
  | Finished st =>
      {| SELLER_KEY := SELLER_KEY w; restoreStatus := st;
         pending := delete id (pending w);
         nextId := nextId w; upstream := upstream w |}
  end.

(** [app.get('/api/restore/status')] *)
Definition get_status (w : World) : World * Response :=
  (w, RStatus (restoreStatus w)).

(** [app.post('/api/restore/stop')] *)
Definition post_stop (w : World) : World * Response :=
  (with_status (set_running false (restoreStatus w)) w, RSuccess).

Definition arrayItems (v : JSValue) : list JSValue :=
  match v with
  | VArr items => items
  | _ => []
  end.

(** [SELLER_KEY] is truthy: neither [null] nor the empty string. *)
Definition keyLoaded (k : option jsstring) : bool :=
  match k with
  | Some (_ :: _) => true
  | _ => false
  end.

(** The three checks at the top of [app.post('/api/restore')]. *)
Definition checkRestore (body : JSValue) (w : World)
  : Completion (list JSValue * JSValue) :=
  if negb (keyLoaded (SELLER_KEY w)) then Throw (lit "Not connected")
  else if running (restoreStatus w) then Throw (lit "Restore already in progress")
  else
    licenses ← getProp body (lit "licenses");
    wipeFirst ← getProp body (lit "wipeFirst");
    if negb (truthy licenses) || negb (isArray licenses)
    then Throw (lit "Invalid licenses data")
    else Normal (arrayItems licenses, wipeFirst).

(** [app.post('/api/restore')] up to its first [await]. *)
Definition post_restore (body : JSValue) (w : World) : World * Response :=
  match checkRestore body w with
  | Throw m =>
      (with_status (catch_handler m (restoreStatus w)) w, RFailure m)
  | Normal (items, wipeFirst) =>
      let st := resetStatus (length items) in
      let s :=
        if truthy wipeFirst
        then Suspended (set_currentKey (VStr (lit "Wiping database...")) st)
                       AwaitWipeKeys
        else for_head items 0 st in
      (install (nextId w) items s
         {| SELLER_KEY := SELLER_KEY w; restoreStatus := st;
            pending := pending w; nextId := S (nextId w);
            upstream := upstream w |},
       RStarted (length items))
  end.

(** The promise awaited by invocation [id] settles and the invocation runs
    to its next [await]. Nothing happens if [id] is not suspended. *)
Definition settle (id : nat) (outcome : Outcome) (w : World) : World :=
  match pending w !! id with
  | Some task =>
      install id (licenses task)
        (resume (licenses task) (point task) outcome (restoreStatus w)) w
  | None => w
  end.

Definition handle (e : Event) (w : World) : World * option Response :=
  match e with
  | GetStatus => let (w', r) := get_status w in (w', Some r)
  | PostStop => let (w', r) := post_stop w in (w', Some r)
  | PostRestore body => let (w', r) := post_restore body w in (w', Some r)
  | Settle id outcome => (settle id outcome w, None)
  end.

Definition step (e : Event) (w : World) : World := fst (handle e w).

(** The events of a run, in order. *)
Definition run (events : list Event) (w : World) : World :=
  fold_left (fun w e => step e w) events w.

(** Whether [post_restore] accepts the request. *)
Definition accepts (body : JSValue) (w : World) : bool :=
  match checkRestore body w with
  | Normal _ => true
  | Throw _ => false
  end.

(** [json.licenses || json.keys || (Array.isArray(json) ? json : [])] *)
Definition extractLicenses (json : JSValue) : Completion JSValue :=
  l ← getProp json (lit "licenses");
  if truthy l then Normal l
  else
    k ← getProp json (lit "keys");
    if truthy k then Normal k
    else Normal (if isArray json then json else VArr []).

(** [app.post('/api/parse-backup')] *)
Definition post_parse_backup (body : JSValue) : Response :=
  match getProp body (lit "content") with
  | Throw m => RFailure m
  | Normal content =>
      let text :=
        match parseBackupText content with
        | Normal found => RLicenses (VArr found) (lit "text")
        | Throw m => RFailure m
        end in
      match JSON_parse content with
      | Some json =>
          match extractLicenses json with
          | Normal found => RLicenses found (lit "json")
          | Throw _ => text
          end
      | None => text
      end
  end.

End Server.

(** The server after start-up with a seller key and no restore yet. *)
Definition connected : World :=
  {| SELLER_KEY := Some (lit "seller"); restoreStatus := initialStatus;
     pending := ∅; nextId := 0; upstream := [] |}.

(** The host of the closed examples. *)
Definition exampleHost : Host := asciiHost (fun _ => None).

(** ** Vocabulary of the statements *)

(** The relation between the counters of a snapshot. *)
Definition counts_ok (st : RestoreStatus) : Prop :=
  success st + skipped st + failed st <= processed st /\ processed st <= total st.

(** No outcome counter of [st'] is below the one of [st]. *)
Definition counts_le (st st' : RestoreStatus) : Prop :=
  success st <= success st' /\ skipped st <= skipped st' /\ failed st <= failed st'.

Definition is_restart (e : Event) : bool :=
  match e with
  | PostRestore _ => true
  | _ => false
  end.

Section Runs.

Context {host : Host}.

(** A run in which a restore request is accepted only when no earlier
    invocation of the restore route is still suspended. *)
Fixpoint orderly (events : list Event) (w : World) : Prop :=
  match events with
  | [] => True
  | e :: rest =>
      match e with
      | PostRestore body => accepts body w = true -> pending w = ∅
      | _ => True
      end /\ orderly rest (step e w)
  end.

End Runs.

(** A value that is not an object or an array. *)
Definition primitive (v : JSValue) : bool :=
  match v with
  | VArr _ | VObj _ | VFun _ => false
  | _ => true
  end.

(** A license record as the backup holds it: an object with a string [key]
    and, if present, primitive [duration] and [level]. *)
Definition recordShaped (v : JSValue) : bool :=
  match v with
  | VObj props =>
      match lookupProp (lit "key") props with
      | VStr _ =>
          primitive (lookupProp (lit "duration") props)
          && primitive (lookupProp (lit "level") props)
      | _ => false
      end
  | _ => false
  end.

(** The lines of the tabular dump of the parser example. *)
Inductive TableLine : Type :=
| HeaderLine
| BorderLine (glyphs : jsstring)
| DataLine.

Definition tableLineText (l : TableLine) : jsstring :=
  match l with
  | HeaderLine => lit "Key   Status   Level"
  | BorderLine glyphs => glyphs
  | DataLine => lit "Soryn-AAAAA-BBBBB  Used  2"
  end.

(** Header lines, and border lines made of box drawing glyphs. *)
Definition decoration (l : TableLine) : bool :=
  match l with
  | HeaderLine => true
  | BorderLine glyphs => forallb JsString.isBoxDrawing glyphs
  | DataLine => false
  end.

(** [lines.join('\n')] *)
Fixpoint joinLines (lines : list jsstring) : jsstring :=
  match lines with
  | [] => []
  | [l] => l
  | l :: rest => l ++ 10%N :: joinLines rest
  end.

Definition tableText (lines : list TableLine) : jsstring :=
  joinLines (List.map tableLineText lines).

(** The record the data line stands for. *)
Definition dataRecord : JSValue :=
  VObj [ (lit "key", VStr (lit "Soryn-AAAAA-BBBBB")); (lit "status", VStr (lit "Used"));
         (lit "level", VStr (lit "2")); (lit "duration", VNum 999999999) ].

(** Requests and replies of the examples. *)
Definition keyed (k : string) : JSValue := VObj [(lit "key", VStr (lit k))].

(** A record as [parseBackupText] builds it for a key without a marker. *)
Definition parsedRecord (k : string) : JSValue :=
  licenseObject (lit k) (lit "Not Used") (lit "1") 999999999.

Definition restoreBody (items : list JSValue) (wipeFirst : bool) : JSValue :=
  VObj [(lit "licenses", VArr items); (lit "wipeFirst", VBool wipeFirst)].

Definition replyOk : Outcome := Resolved (VObj [(lit "success", VBool true)]).

Definition replyFailure (message : string) : Outcome :=
  Resolved (VObj [(lit "success", VBool false); (lit "message", VStr (lit message))]).

Definition timer : Outcome := Resolved VUndefined.

(** The backup document [{"licenses":[{"status":"Used"}]}]: its text, its
    parse, and a host whose [JSON.parse] knows this text. *)
Definition quoted (s : string) : jsstring := 34%N :: lit s ++ [34%N].

Definition keylessBackupText : jsstring :=
  lit "{" ++ quoted "licenses" ++ lit ":[{" ++ quoted "status" ++ lit ":"
  ++ quoted "Used" ++ lit "}]}".

Definition keylessRecord : JSValue := VObj [(lit "status", VStr (lit "Used"))].

Definition keylessBackup : JSValue := VObj [(lit "licenses", VArr [keylessRecord])].

Definition backupHost : Host :=
  asciiHost (fun v =>
    match v with
    | VStr s => if JsString.eqb s keylessBackupText then Some keylessBackup else None
    | _ => None
    end).

(** [restoreStatus] as a run of the route leaves it. *)
Definition status_of (s : Step) : RestoreStatus :=
  match s with
  | Suspended st _ => st
  | Finished st => st
  end.

(** The outcomes counted so far. *)
Definition tally (st : RestoreStatus) : nat := success st + skipped st + failed st.

(** The snapshot while the only invocation of the route waits at [p] over
    [items]: nothing is counted during the wipe; at item [i] the item is
    already in [processed] and its outcome is counted at most once, and not
    before the retry loop is left. *)
Definition waiting_ok (items : list JSValue) (p : Await) (st : RestoreStatus) : Prop :=
  total st = length items /\
  match p with
  | AwaitWipeKeys | AwaitSleepWipeKeys | AwaitWipeUsers | AwaitSleepWipeUsers =>
      processed st = 0 /\ tally st = 0
  | AwaitAdd i _ _ | AwaitSleepRate i _ _ | AwaitSleepError i _ _ =>
      i < length items /\ processed st = i + 1 /\ tally st <= i
  | AwaitSleepItem i | AwaitSleepBatch i =>
      i < length items /\ processed st = i + 1 /\ tally st <= i + 1
  end.

Definition step_ok (items : list JSValue) (s : Step) : Prop :=
  match s with
  | Suspended st p => waiting_ok items p st
  | Finished st => counts_ok st
  end.

(** The invariant of orderly runs: no invocation is suspended and the
    counters are consistent, or exactly one is and the snapshot is the one
    of its job. *)
Definition solo_ok (w : World) : Prop :=
  (pending w = ∅ /\ counts_ok (restoreStatus w))
  \/ exists id t, pending w = {[id := t]}
                  /\ waiting_ok (licenses t) (point t) (restoreStatus w).

(** A bound on the [await]s the route still goes through from [p] when
    nothing is thrown out of the loop: at most eight per record (three
    calls, three back-off pauses, the pause between records and the extra
    pause), and four for the wipe. *)
Definition budget (items : list JSValue) (p : Await) : nat :=
  match p with
  | AwaitWipeKeys => 4 + 8 * length items
  | AwaitSleepWipeKeys => 3 + 8 * length items
  | AwaitWipeUsers => 2 + 8 * length items
  | AwaitSleepWipeUsers => 1 + 8 * length items
  | AwaitAdd i retries _ => 2 * Z.to_nat retries + 2 + 8 * (length items - (i + 1))
  | AwaitSleepRate i retries _ | AwaitSleepError i retries _ =>
      2 * Z.to_nat retries + 1 + 8 * (length items - (i + 1))
  | AwaitSleepItem i => 2 + 8 * (length items - (i + 1))
  | AwaitSleepBatch i => 1 + 8 * (length items - (i + 1))
  end.

(** The job is in its item loop at [p], running and with no error. *)
Definition progressing (items : list JSValue) (p : Await) (st : RestoreStatus) : Prop :=
  running st = true /\ error st = None /\ total st = length items /\
  match p with
  | AwaitAdd i retries _ | AwaitSleepRate i retries _ | AwaitSleepError i retries _ =>
      i < length items /\ processed st = i + 1 /\ (1 <= retries <= 3)%Z
  | AwaitSleepItem i | AwaitSleepBatch i =>
      i < length items /\ processed st = i + 1
  | _ => False
  end.

(** The job went through every record and ended normally. *)
Definition completed (items : list JSValue) (st : RestoreStatus) : Prop :=
  running st = false /\ error st = None /\ total st = length items
  /\ processed st = length items /\ currentKey st = VStr (lit "Complete").

(** The route resumed with one settling after the other, for as long as it
    is suspended. *)
Fixpoint replay {host : Host} (items : list JSValue) (outcomes : list Outcome)
    (s : Step) : Step :=
  match outcomes, s with
  | o :: rest, Suspended st p => replay items rest (resume items p o st)
  | _, _ => s
  end.

(** The route is inside the retry loop of record [i]. *)
Definition retrying (i : nat) (p : Await) : Prop :=
  match p with
  | AwaitAdd j _ _ | AwaitSleepRate j _ _ | AwaitSleepError j _ _ => j = i
  | _ => False
  end.

(** The route has left the retry loop of record [i]. *)
Definition past (i : nat) (s : Step) : Prop :=
  match s with
  | Finished _ => True
  | Suspended _ p =>
      match p with
      | AwaitAdd j _ _ | AwaitSleepRate j _ _ | AwaitSleepError j _ _ => i < j
      | AwaitSleepItem j | AwaitSleepBatch j => i <= j
      | _ => False
      end
  end.

(** ** The other routes

    The routes below do not touch [restoreStatus]: each reads [SELLER_KEY]
    and the request body, calls the licensing service once or twice and
    replies. They read the properties [users], [amount], [mask], [reason],
    [username], [config] and [seller_key] besides those listed at
    [getProp]; no array or string has one of these. *)

(** The object given to [new URLSearchParams], in order; as in
    [UpstreamCall], a value is recorded as it is before its conversion to a
    string. *)
Definition Query : Type := list (jsstring * JSValue).

(** What [await Promise.all([a, b])] gives: both values, or the error of the
    promise that rejects first. *)
Inductive Joined : Type :=
| AllResolved (first second : JSValue)
| AnyRejected (message : jsstring).

(** An invocation of such a route: it replies with [res.json(body)], or
    awaits a call of [makeKeyAuthRequest], two calls at once, or a pause. *)
Inductive Proc : Type :=
| Reply (body : JSValue)
| Call (query : Query) (k : Outcome -> Proc)
| CallAll (first second : Query) (k : Joined -> Proc)
| Pause (ms : nat) (k : Proc).

(** What the event loop hands to a waiting invocation. *)
Inductive Input : Type :=
| Settled (outcome : Outcome)
| SettledAll (joined : Joined)
| Tick.

(** An invocation run on the inputs it is given: the calls it makes, in
    order, and its reply if it gets that far. *)
Fixpoint perform (p : Proc) (inputs : list Input) : list Query * option JSValue :=
  match p with
  | Reply body => ([], Some body)
  | Call q k =>
      match inputs with
      | Settled o :: rest => let r := perform (k o) rest in (q :: fst r, snd r)
      | _ => ([q], None)
      end
  | CallAll q1 q2 k =>
      match inputs with
      | SettledAll j :: rest => let r := perform (k j) rest in (q1 :: q2 :: fst r, snd r)
      | _ => ([q1; q2], None)
      end
  | Pause _ k =>
      match inputs with
      | Tick :: rest => perform k rest
      | _ => ([], None)
      end
  end.

(** [{ success: false, error: error.message }] *)
Definition failure (message : jsstring) : JSValue :=
  VObj [(lit "success", VBool false); (lit "error", VStr message)].

(** The synchronous part of a [try] block: what it throws goes to the
    [catch], which replies with the message. *)
Definition guarded (c : Completion Proc) : Proc :=
  match c with
  | Normal p => p
  | Throw m => Reply (failure m)
  end.

(** [await makeKeyAuthRequest(q)] inside a [try], then [next]. *)
Definition awaitCall (q : Query) (next : JSValue -> Completion Proc) : Proc :=
  Call q (fun o =>
    match o with
    | Resolved response => guarded (next response)
    | Rejected m => Reply (failure m)
    end).

Section Routes.

Context {host : Host}.

(** [new URLSearchParams({ sellerkey: SELLER_KEY, ...fields })]: every value
    is converted to a string, which can throw. *)
Definition newQuery (key : option jsstring) (fields : Query) : Completion Query :=
  let q := (lit "sellerkey", VStr (default [] key)) :: fields in
  match List.find (fun f => negb (stringifies (snd f))) q with
  | Some f => Throw (typeError (snd f) (lit "toString"))
  | None => Normal q
  end.

(** The parameters of a create call of the restore routes, as a query. *)
Definition queryOfCall (key : option jsstring) (c : UpstreamCall) : Query :=
  (lit "sellerkey", VStr (default [] key)) ::
  match c with
  | DelAllKeys => [(lit "type", VStr (lit "delallkeys"))]
  | DelAllUsers => [(lit "type", VStr (lit "delallusers"))]
  | AddKey k d l =>
      [(lit "type", VStr (lit "add")); (lit "key", k); (lit "expiry", d);
       (lit "level", l)]
  end.

(** [if (!SELLER_KEY) throw new Error('Not connected')] in front of a route. *)
Definition connectedOnly (key : option jsstring) (c : Completion Proc) : Proc :=
  if negb (keyLoaded key) then Reply (failure (lit "Not connected")) else guarded c.

(** [{ success: response.success, message: response.message }] *)
Definition relayed (response : JSValue) : Completion Proc :=
  s ← getProp response (lit "success");
  m ← getProp response (lit "message");
  Normal (Reply (VObj [(lit "success", s); (lit "message", m)])).

(** [app.get('/api/health')] *)
Definition health (key : option jsstring) : JSValue :=
  VObj [(lit "status", VStr (lit "ok")); (lit "connected", VBool (keyLoaded key))].

(** [app.get('/api/licenses')] *)
Definition get_licenses (key : option jsstring) (body : JSValue) : Proc :=
  connectedOnly key (
    q ← newQuery key [(lit "type", VStr (lit "fetchallkeys"))];
    Normal (awaitCall q (fun response =>
      keys ← getProp response (lit "keys");
      Normal (Reply (VObj [(lit "success", VBool true);
                           (lit "licenses", or_else keys (VArr []))]))))).

(** [app.get('/api/users')] *)
Definition get_users (key : option jsstring) (body : JSValue) : Proc :=
  connectedOnly key (
    q ← newQuery key [(lit "type", VStr (lit "fetchallusers"))];
    Normal (awaitCall q (fun response =>
      users ← getProp response (lit "users");
      Normal (Reply (VObj [(lit "success", VBool true);
                           (lit "users", or_else users (VArr []))]))))).

(** [duration.toString()] *)
Definition call_toString (v : JSValue) : Completion JSValue :=
  match v with
  | VUndefined | VNull => Throw (typeError v (lit "toString"))
  | _ => if stringifies v then Normal v else Throw (typeError v (lit "toString"))
  end.

(** [app.post('/api/generate')] *)
Definition post_generate (key : option jsstring) (body : JSValue) : Proc :=
  connectedOnly key (
    amount ← getProp body (lit "amount");
    duration ← getProp body (lit "duration");
    level ← getProp body (lit "level");
    mask ← getProp body (lit "mask");
    expiry ← call_toString duration;
    q ← newQuery key
          [(lit "type", VStr (lit "add")); (lit "expiry", expiry);
           (lit "mask", or_else mask (VStr (lit "Soryn-XXXXX-XXXXX")));
           (lit "level", or_else level (VStr (lit "1")));
           (lit "amount", or_else amount (VStr (lit "1")));
           (lit "owner", VStr (lit "Soryn"))];
    Normal (awaitCall q (fun response =>
      ok ← getProp response (lit "success");
      if truthy ok then
        keys ← getProp response (lit "keys");
        one ← getProp response (lit "key");
        Normal (Reply (VObj [(lit "success", VBool true);
                             (lit "keys",
                              or_else keys (if truthy one then VArr [one] else VArr []))]))
      else
        m ← getProp response (lit "message");
        Normal (Reply (VObj [(lit "success", VBool false); (lit "error", m)]))))).

(** The routes that make one call and pass its verdict on. *)
Definition relay (key : option jsstring) (fields : Completion Query) : Proc :=
  connectedOnly key (
    fs ← fields;
    q ← newQuery key fs;
    Normal (awaitCall q relayed)).

(** [app.post('/api/wipe/licenses')] *)
Definition post_wipe_licenses (key : option jsstring) (body : JSValue) : Proc :=
  relay key (Normal [(lit "type", VStr (lit "delallkeys"))]).

(** [app.post('/api/wipe/unused')] *)
Definition post_wipe_unused (key : option jsstring) (body : JSValue) : Proc :=
  relay key (Normal [(lit "type", VStr (lit "delunusedkeys"))]).

(** [app.post('/api/wipe/used')] *)
Definition post_wipe_used (key : option jsstring) (body : JSValue) : Proc :=
  relay key (Normal [(lit "type", VStr (lit "delusedkeys"))]).

(** [app.post('/api/wipe/users')] *)
Definition post_wipe_users (key : option jsstring) (body : JSValue) : Proc :=
  relay key (Normal [(lit "type", VStr (lit "delallusers"))]).

(** [app.post('/api/license/delete')] *)
Definition post_license_delete (key : option jsstring) (body : JSValue) : Proc :=
  relay key (k ← getProp body (lit "key");
             Normal [(lit "type", VStr (lit "del")); (lit "key", k)]).

(** [app.post('/api/user/reset-hwid')] *)
Definition post_reset_hwid (key : option jsstring) (body : JSValue) : Proc :=
  relay key (u ← getProp body (lit "username");
             Normal [(lit "type", VStr (lit "resethwid")); (lit "user", u)]).

(** [app.post('/api/user/delete')] *)
Definition post_user_delete (key : option jsstring) (body : JSValue) : Proc :=
  relay key (u ← getProp body (lit "username");
             Normal [(lit "type", VStr (lit "deluser")); (lit "user", u)]).

(** [app.post('/api/wipe/full')] *)
Definition post_wipe_full (key : option jsstring) (body : JSValue) : Proc :=
  connectedOnly key (
    keysParams ← newQuery key [(lit "type", VStr (lit "delallkeys"))];
    Normal (awaitCall keysParams (fun _ =>
      usersParams ← newQuery key [(lit "type", VStr (lit "delallusers"))];
      Normal (awaitCall usersParams (fun _ =>
        Normal (Reply (VObj [(lit "success", VBool true);
                             (lit "message", VStr (lit "Full wipe complete"))]))))))).

(** [app.post('/api/license/ban')] *)
Definition post_license_ban (key : option jsstring) (body : JSValue) : Proc :=
  connectedOnly key (
    k ← getProp body (lit "key");
    reason ← getProp body (lit "reason");
    params ← newQuery key [(lit "type", VStr (lit "ban")); (lit "key", k);
                           (lit "reason", or_else reason (VStr []))];
    Normal (awaitCall params (fun response =>
      userParams ← newQuery key [(lit "type", VStr (lit "banuser")); (lit "user", k);
                                 (lit "reason", or_else reason (VStr []))];
      Normal (awaitCall userParams (fun _ => relayed response))))).

(** [app.post('/api/license/unban')] *)
Definition post_license_unban (key : option jsstring) (body : JSValue) : Proc :=
  connectedOnly key (
    k ← getProp body (lit "key");
    params ← newQuery key [(lit "type", VStr (lit "unban")); (lit "key", k)];
    Normal (awaitCall params (fun response =>
      userParams ← newQuery key [(lit "type", VStr (lit "unbanuser")); (lit "user", k)];
      Normal (awaitCall userParams (fun _ => relayed response))))).

(** The object [backup] of [app.get('/api/backup')]; [now] is
    [new Date().toISOString()]. *)
Definition backupDocument (now : jsstring) (keys users : JSValue) : JSValue :=
  VObj [(lit "exportDate", VStr now); (lit "appName", VStr (lit "Soryn"));
        (lit "licenses", or_else keys (VArr []));
        (lit "users", or_else users (VArr []))].

(** [app.get('/api/backup')] *)
Definition get_backup (now : jsstring) (key : option jsstring) (body : JSValue) : Proc :=
  connectedOnly key (
    keysParams ← newQuery key [(lit "type", VStr (lit "fetchallkeys"))];
    usersParams ← newQuery key [(lit "type", VStr (lit "fetchallusers"))];
    Normal (CallAll keysParams usersParams (fun j =>
      match j with
      | AnyRejected m => Reply (failure m)
      | AllResolved keysResponse usersResponse =>
          guarded (
            keys ← getProp keysResponse (lit "keys");
            users ← getProp usersResponse (lit "users");
            Normal (Reply (VObj [(lit "success", VBool true);
                                 (lit "backup", backupDocument now keys users)])))
      end))).

(** The end of [makeKeyAuthRequest]: the body [data] of the reply is parsed,
    or the promise is rejected with the first 200 units of it. *)
Definition decodeReply (data : jsstring) : Outcome :=
  match JSON_parse (VStr data) with
  | Some json => Resolved json
  | None => Rejected (lit "Invalid response: " ++ take 200 data)
  end.



End Routes.

(** ** The restore route of [server.js]

    The second source file has the same routes but a simpler
    [app.post('/api/restore')]: no [restoreStatus], one attempt per record,
    and the reply is sent when the loop is over. *)

(** The local counters [success], [failed], [skipped]. *)
Module Simple.
Record Counters : Type := {
  success : nat;
  failed : nat;
  skipped : nat
}.
End Simple.

Section SimpleRestore.

Context {host : Host}.

(** The [try]/[catch] around the create call: which counter goes up. *)
Definition simpleCount (o : Outcome) (c : Simple.Counters) : Simple.Counters :=
  let fail := {| Simple.success := Simple.success c; Simple.failed := S (Simple.failed c);
       Simple.skipped := Simple.skipped c |} in
  match o with
  | Rejected _ => fail
  | Resolved result =>
      match
        (ok ← getProp result (lit "success");
         if truthy ok then
           Normal {| Simple.success := S (Simple.success c);
                    Simple.failed := Simple.failed c;
                    Simple.skipped := Simple.skipped c |}
         else
           message ← getProp result (lit "message");
           if truthy message then
             msg ← call_toLowerCase message;
             Normal (if JsString.includes msg (lit "already")
                     then {| Simple.success := Simple.success c;
                             Simple.failed := Simple.failed c;
                             Simple.skipped := S (Simple.skipped c) |}
                     else fail)
           else Normal fail)
      with
      | Normal c' => c'
      | Throw _ => fail
      end
  end.

(** [{ success: true, added: success, skipped, failed }] *)
Definition simpleSummary (c : Simple.Counters) : JSValue :=
  VObj [(lit "success", VBool true); (lit "added", VNum (Z.of_nat (Simple.success c)));
        (lit "skipped", VNum (Z.of_nat (Simple.skipped c)));
        (lit "failed", VNum (Z.of_nat (Simple.failed c)))].

(** [for (const license of licenses)] and the reply after it. *)
Fixpoint simple_loop (key : option jsstring) (licenses : list JSValue) (c : Simple.Counters)
  : Proc :=
  match licenses with
  | [] => Reply (simpleSummary c)
  | license :: rest =>
      guarded (
        r ← readLicense license;
        params ← makeParams (fst (fst r)) (snd (fst r)) (snd r);
        Normal (Call (queryOfCall key params) (fun o =>
                  Pause 50 (simple_loop key rest (simpleCount o c)))))
  end.

(** [app.post('/api/restore')] of [server.js]. *)
Definition simple_restore (key : option jsstring) (body : JSValue) : Proc :=
  connectedOnly key (
    licenses ← getProp body (lit "licenses");
    wipeFirst ← getProp body (lit "wipeFirst");
    if negb (truthy licenses) || negb (isArray licenses)
    then Throw (lit "Invalid licenses data")
    else
      let loop :=
        simple_loop key (arrayItems licenses)
          {| Simple.success := 0; Simple.failed := 0; Simple.skipped := 0 |} in
      if truthy wipeFirst then
        wipeKeys ← newQuery key [(lit "type", VStr (lit "delallkeys"))];
        wipeUsers ← newQuery key [(lit "type", VStr (lit "delallusers"))];
        Normal (awaitCall wipeKeys (fun _ =>
                  Normal (awaitCall wipeUsers (fun _ => Normal loop))))
      else Normal loop).

(** The routes of both files that forward to the licensing service and
    reply when they are done, under one type; [now] is the clock reading of
    the backup route. *)
Definition forwardRoutes (now : jsstring)
  : list (option jsstring -> JSValue -> Proc) :=
  [ get_licenses; get_users; post_generate; post_wipe_licenses; post_wipe_unused;
    post_wipe_used; post_wipe_users; post_wipe_full; post_license_ban;
    post_license_unban; post_license_delete; post_reset_hwid; post_user_delete;
    get_backup now ].

(** The same with the restore route of [server.js]. *)
Definition proxyRoutes (now : jsstring)
  : list (option jsstring -> JSValue -> Proc) :=
  forwardRoutes now ++ [simple_restore].

(** The routes that pass on the verdict of their one call. *)
Definition relayRoutes : list (option jsstring -> JSValue -> Proc) :=
  [ post_wipe_licenses; post_wipe_unused; post_wipe_used; post_wipe_users;
    post_license_delete; post_reset_hwid; post_user_delete ].

End SimpleRestore.

(** ** More vocabulary *)

(** A rejected call ends the invocation at once: the reply is the error
    message and no further call is made. *)
Fixpoint failFast (p : Proc) : Prop :=
  match p with
  | Reply _ => True
  | Call _ k =>
      (forall m, k (Rejected m) = Reply (failure m))
      /\ (forall v, failFast (k (Resolved v)))
  | CallAll _ _ k =>
      (forall m, k (AnyRejected m) = Reply (failure m))
      /\ (forall a b, failFast (k (AllResolved a b)))
  | Pause _ k => failFast k
  end.

(** The create call the restore routes make for [license], if reading it
    throws nothing. *)
Definition recordQuery {host : Host} (key : option jsstring) (license : JSValue)
  : option Query :=
  match readLicense license with
  | Normal (k, d, l) =>
      match makeParams k d l with
      | Normal params => Some (queryOfCall key params)
      | Throw _ => None
      end
  | Throw _ => None
  end.

(** The create calls in a log. *)
Definition creates (calls : list UpstreamCall) : nat :=
  length (List.filter (fun c => match c with AddKey _ _ _ => true | _ => false end) calls).

(** A bound on the [await]s left at [p] inside the record being restored. *)
Definition cost (p : Await) : nat :=
  match p with
  | AwaitAdd _ retries _ => 2 * Z.to_nat retries + 2
  | AwaitSleepRate _ retries _ | AwaitSleepError _ retries _ => 2 * Z.to_nat retries + 1
  | AwaitSleepItem _ => 2
  | AwaitSleepBatch _ => 1
  | _ => 0
  end.

(** The record the route is at, when it is in the loop, with between one
    and three attempts left. *)
Definition atRecord (p : Await) : option nat :=
  match p with
  | AwaitAdd i retries _ | AwaitSleepRate i retries _ | AwaitSleepError i retries _ =>
      if (1 <=? retries)%Z && (retries <=? 3)%Z then Some i else None
  | AwaitSleepItem i | AwaitSleepBatch i => Some i
  | _ => None
  end.

(** A record as [parseBackupText] makes them: [key] in the reserved prefix,
    [status] a string, [level] a string of digits, [duration] one of the
    five durations. *)
Definition parsedShape {host : Host} (v : JSValue) : bool :=
  match v with
  | VObj [(k, VStr key); (s, VStr status); (l, VStr level); (d, VNum duration)] =>
      JsString.eqb k (lit "key") && JsString.eqb s (lit "status")
      && JsString.eqb l (lit "level") && JsString.eqb d (lit "duration")
      && JsString.startsWith (toLowerCase key) (lit "soryn")
      && JsString.allDigits level
      && existsb (Z.eqb duration) [999999999; 2592000; 604800; 86400; 31536000]%Z
  | _ => false
  end.

(** Whether the outcome of the record at [p] is still to be counted. *)
Definition slack (p : Await) : nat :=
  match p with
  | AwaitAdd _ _ _ | AwaitSleepRate _ _ _ | AwaitSleepError _ _ _ => 1
  | _ => 0
  end.

(** The snapshot [st] of a stopped job that was at [st0] when the stop came:
    only the outcome counters can have moved, by [extra] at most in all. *)
Definition stopping (st0 : RestoreStatus) (extra : nat) (st : RestoreStatus) : Prop :=
  running st = false /\ total st = total st0 /\ processed st = processed st0
  /\ error st = error st0 /\ counts_le st0 st /\ tally st <= tally st0 + extra.

(** The create calls in the log [calls] while the only invocation waits at
    [p], for a job that found [b] of them in the log: three per record
    already left behind, and for the current record the attempts used. *)
Definition waiting_calls (b : nat) (p : Await) (st : RestoreStatus)
    (calls : list UpstreamCall) : Prop :=
  match p with
  | AwaitWipeKeys | AwaitSleepWipeKeys | AwaitWipeUsers | AwaitSleepWipeUsers =>
      processed st = 0 /\ creates calls <= b
  | AwaitAdd i retries _ | AwaitSleepRate i retries _ | AwaitSleepError i retries _ =>
      processed st = i + 1 /\ (1 <= retries <= 3)%Z
      /\ creates calls + Z.to_nat retries <= b + 3 * i + 4
  | AwaitSleepItem i | AwaitSleepBatch i =>
      processed st = i + 1 /\ creates calls <= b + 3 * (i + 1)
  end.

Definition calls_ok (b : nat) (w : World) : Prop :=
  (pending w = ∅ /\ creates (upstream w) <= b + 3 * processed (restoreStatus w))
  \/ exists id t, pending w = {[id := t]}
                  /\ waiting_calls b (point t) (restoreStatus w) (upstream w).

(** The snapshot [st] at the end of a job that was stopped at record [i]
    with snapshot [st0]. *)
Definition stopped_at (items : list JSValue) (i : nat) (st0 : RestoreStatus)
    (st : RestoreStatus) : Prop :=
  running st = false /\ total st = total st0 /\ processed st = processed st0
  /\ currentKey st = VStr (lit "Complete")
  /\ error st = (if i + 1 <? length items then Some (lit "Stopped by user")
                 else error st0)
  /\ counts_le st0 st /\ tally st <= tally st0 + 1.

(** [waiting_calls] or its counterpart at the end of the job, for the step
    [s] of an invocation that found the log [calls]. *)
Definition step_calls (b : nat) (s : Step) (calls : list UpstreamCall) : Prop :=
  match s with
  | Finished st => creates calls <= b + 3 * processed st
  | Suspended st p => waiting_calls b p st (calls ++ option_list (issued p))
  end.

(** A loaded seller key and a refusal of the licensing service, for the
    examples. *)
Definition sellerKey : option jsstring := Some (lit "seller").

Definition refusal : JSValue :=
  VObj [(lit "success", VBool false); (lit "message", VStr (lit "Seller key is invalid"))].

(** The inputs of a restore of [server.js]: for each record the outcome of
    its create call and the end of the pause after it. *)
Definition paced (outcomes : list Outcome) : list Input :=
  flat_map (fun o => [Settled o; Tick]) outcomes.

(** The records the local counters of [server.js] account for. *)
Definition counted (c : Simple.Counters) : nat :=
  Simple.success c + Simple.failed c + Simple.skipped c.

(** The create call the restore loop of the panel makes for [license], if
    reading it throws nothing. *)
Definition recordCall {host : Host} (license : JSValue) : option UpstreamCall :=
  match readLicense license with
  | Normal (k, d, l) =>
      match makeParams k d l with
      | Normal params => Some params
      | Throw _ => None
      end
  | Throw _ => None
  end.

(** A reply that reports success. *)
Definition accepting {host : Host} (o : Outcome) : bool :=
  match o with
  | Resolved result =>
      match getProp result (lit "success") with
      | Normal ok => truthy ok
      | Throw _ => false
      end
  | Rejected _ => false
  end.

(** A job whose calls were all accepted so far: [done] records are counted
    as added, none as skipped or failed, and since the log [before] the
    create calls of the first [sent] records were made, one each, in
    order. *)
Definition smooth {host : Host} (items : list JSValue) (before : list UpstreamCall)
    (sent done : nat) (st : RestoreStatus) (calls : list UpstreamCall) : Prop :=
  success st = done /\ skipped st = 0 /\ failed st = 0 /\ error st = None
  /\ sent <= length items
  /\ exists cs, calls = before ++ cs
                /\ List.map Some cs = List.map recordCall (take sent items).

(** The same while the invocation waits at [p]. *)
Definition smooth_at {host : Host} (items : list JSValue) (before : list UpstreamCall)
    (p : Await) (st : RestoreStatus) (calls : list UpstreamCall) : Prop :=
  running st = true
  /\ match p with
     | AwaitAdd i _ _ => smooth items before (i + 1) i st calls
     | AwaitSleepItem i | AwaitSleepBatch i => smooth items before (i + 1) (i + 1) st calls
     | _ => False
     end.

(** The same for the step [s] of an invocation that found the log [calls]. *)
Definition smooth_step {host : Host} (items : list JSValue) (before : list UpstreamCall)
    (s : Step) (calls : list UpstreamCall) : Prop :=
  match s with
  | Suspended st p => smooth_at items before p st (calls ++ option_list (issued p))
  | Finished st =>
      running st = false /\ smooth items before (length items) (length items) st calls
  end.

(** The same for the server with at most one invocation. *)
Definition smooth_world {host : Host} (items : list JSValue) (before : list UpstreamCall)
    (w : World) : Prop :=
  (pending w = ∅ /\ running (restoreStatus w) = false
   /\ smooth items before (length items) (length items) (restoreStatus w) (upstream w))
  \/ exists id p, pending w = {[id := {| licenses := items; point := p |}]}
                  /\ smooth_at items before p (restoreStatus w) (upstream w).


(** * Properties *)

(** ** Strings *)

Module JsStringFacts.
Import JsString.

Lemma startsWith_app (p r : t) : startsWith (p ++ r) p = true.
Proof.
  induction p as [|c p IH]; [reflexivity|].
  cbn. now rewrite N.eqb_refl, IH.
Qed.

Lemma startsWith_split (s p : t) :
  startsWith s p = true -> exists r, s = p ++ r.
Proof.
  revert s; induction p as [|c p IH]; intros s H.
  - now exists s.
  - destruct s as [|d s]; [discriminate|].
    cbn in H. apply andb_prop in H as [Hc Hs].
    apply N.eqb_eq in Hc; subst d.
    destruct (IH _ Hs) as [r ->]. now exists r.
Qed.

Lemma startsWith_shorter (s p q : t) :
  startsWith s (p ++ q) = true -> startsWith s p = true.
Proof.
  intros H. destruct (startsWith_split _ _ H) as [r ->].
  rewrite <- app_assoc. apply startsWith_app.
Qed.

Lemma includes_here (s sub : t) : startsWith s sub = true -> includes s sub = true.
Proof. intros H. destruct s; cbn in *; now rewrite H. Qed.

Lemma includes_later (c : N) (s sub : t) :
  includes s sub = true -> includes (c :: s) sub = true.
Proof. intros H. cbn. rewrite H. apply orb_true_r. Qed.

Lemma includes_app (a sub c : t) : includes (a ++ sub ++ c) sub = true.
Proof.
  induction a as [|x a IH].
  - apply includes_here. exact (startsWith_app sub c).
  - now apply includes_later.
Qed.

Lemma includes_split (s sub : t) :
  includes s sub = true -> exists a c, s = a ++ sub ++ c.
Proof.
  induction s as [|x s IH]; cbn; intros H.
  - rewrite orb_false_r in H. destruct (startsWith_split _ _ H) as [r ->].
    now exists [], r.
  - apply orb_prop in H as [H|H].
    + destruct (startsWith_split _ _ H) as [r Hr]. exists [], r. exact Hr.
    + destruct (IH H) as (a & c & ->). now exists (x :: a), c.
Qed.

(** A needle is found in whatever holds a longer needle. *)
Lemma includes_shorter (s p q r : t) :
  includes s (p ++ q ++ r) = true -> includes s q = true.
Proof.
  intros H. destruct (includes_split _ _ H) as (a & c & ->).
  replace (a ++ (p ++ q ++ r) ++ c) with ((a ++ p) ++ q ++ (r ++ c)).
  - apply includes_app.
  - now rewrite <- !app_assoc.
Qed.

Lemma trimStart_clean (s : t) :
  forallb (fun c => negb (isWhiteSpace c)) s = true -> trimStart s = s.
Proof.
  destruct s as [|c s]; [reflexivity|]. cbn.
  intros H. apply andb_prop in H as [H _].
  now destruct (isWhiteSpace c).
Qed.

Lemma trim_clean (s : t) :
  forallb (fun c => negb (isWhiteSpace c)) s = true -> trim s = s.
Proof.
  intros H. unfold trim, trimEnd. rewrite (trimStart_clean s H).
  rewrite trimStart_clean; [apply rev_involutive|].
  rewrite forallb_forall in *. intros c Hc. apply H.
  now apply in_rev.
Qed.

Lemma splitColumns_from_clean (cur s : t) :
  forallb (fun c => negb (isWhiteSpace c)) s = true ->
  splitColumns_from cur [] s = [cur ++ s].
Proof.
  revert cur; induction s as [|c s IH]; intros cur H; cbn.
  - reflexivity.
  - cbn in H. apply andb_prop in H as [Hc Hs].
    destruct (isWhiteSpace c); [discriminate|].
    rewrite IH by assumption. now rewrite <- app_assoc.
Qed.

Lemma splitLines_from_line (cur l rest : t) :
  forallb (fun c => negb (c =? 10)%N) l = true ->
  splitLines_from cur (l ++ 10%N :: rest) = (cur ++ l) :: splitLines_from [] rest.
Proof.
  revert cur; induction l as [|c l IH]; intros cur H; cbn.
  - now rewrite app_nil_r.
  - cbn in H. apply andb_prop in H as [Hc Hl].
    destruct (c =? 10)%N; [discriminate|].
    rewrite IH by assumption. now rewrite <- app_assoc.
Qed.

Lemma splitLines_from_last (cur l : t) :
  forallb (fun c => negb (c =? 10)%N) l = true ->
  splitLines_from cur l = [cur ++ l].
Proof.
  revert cur; induction l as [|c l IH]; intros cur H; cbn.
  - now rewrite app_nil_r.
  - cbn in H. apply andb_prop in H as [Hc Hl].
    destruct (c =? 10)%N; [discriminate|].
    rewrite IH by assumption. now rewrite <- app_assoc.
Qed.

Lemma boxDrawing_not_space (c : N) :
  isBoxDrawing c = true -> isWhiteSpace c = false.
Proof.
  unfold isBoxDrawing, isWhiteSpace. intros H.
  apply andb_prop in H as [H1 H2].
  apply N.leb_le in H1, H2.
  repeat match goal with
         | |- context [(?a <=? ?b)%N] => destruct (N.leb_spec a b)
         | |- context [(?a =? ?b)%N] => destruct (N.eqb_spec a b)
         end; cbn; try reflexivity; lia.
Qed.

Lemma boxDrawing_lower (c : N) : isBoxDrawing c = true -> lowerUnit c = c.
Proof.
  unfold isBoxDrawing, lowerUnit. intros H.
  apply andb_prop in H as [H1 H2]. apply N.leb_le in H1, H2.
  destruct (N.leb_spec 65 c), (N.leb_spec c 90); cbn; try reflexivity; lia.
Qed.

End JsStringFacts.

(** ** Durations *)

Section DurationFacts.

Context {host : Host}.

Lemma parseDurationFromKeyName_string (keyName : jsstring) :
  exists d : Z, parseDurationFromKeyName (VStr keyName) = Normal d.
Proof.
  unfold parseDurationFromKeyName. cbn.
  repeat match goal with
         | |- context [if ?b then _ else _] => destruct b
         end; eauto.
Qed.

Lemma parseDurationFromKeyName_plain (keyName : jsstring) :
  forallb JsString.isPlain keyName = true ->
  parseDurationFromKeyName (VStr keyName)
  = @parseDurationFromKeyName exampleHost (VStr keyName).
Proof.
  intros H. unfold parseDurationFromKeyName. cbn.
  now rewrite toLowerCase_plain.
Qed.

(** C6: [parseDurationFromKeyName] returns a number on every string (it is
    a function, so it returns the same number each time), and it maps
    "Soryn-XXXX-1month" to 2592000 and both "Soryn-XXXX-lifetime" and the
    marker-free "Soryn-XXXX" to 999999999. *)
Theorem duration_derivation_total :
  (forall keyName : jsstring,
      exists d : Z, parseDurationFromKeyName (VStr keyName) = Normal d)
  /\ parseDurationFromKeyName (VStr (lit "Soryn-XXXX-1month")) = Normal 2592000%Z
  /\ parseDurationFromKeyName (VStr (lit "Soryn-XXXX-lifetime")) = Normal 999999999%Z
  /\ parseDurationFromKeyName (VStr (lit "Soryn-XXXX")) = Normal 999999999%Z.
Proof.
  split; [exact parseDurationFromKeyName_string|].
  repeat split; rewrite parseDurationFromKeyName_plain by reflexivity;
    vm_compute; reflexivity.
Qed.

End DurationFacts.

(** ** The text parser *)

Section ParserFacts.

Context {host : Host}.
Import JsString JsStringFacts.

Lemma parseLine_header : parseLine (tableLineText HeaderLine) = Normal [].
Proof. vm_compute. reflexivity. Qed.

Lemma parseLine_data : parseLine (tableLineText DataLine) = Normal [dataRecord].
Proof.
  unfold parseLine.
  replace (skippedLine (trim (tableLineText DataLine))) with false
    by (vm_compute; reflexivity).
  replace (splitColumns (trim (tableLineText DataLine)))
    with [lit "Soryn-AAAAA-BBBBB"; lit "Used"; lit "2"]
    by (vm_compute; reflexivity).
  replace (trim (lit "Soryn-AAAAA-BBBBB")) with (lit "Soryn-AAAAA-BBBBB")
    by (vm_compute; reflexivity).
  rewrite toLowerCase_plain by reflexivity.
  rewrite parseDurationFromKeyName_plain by reflexivity.
  vm_compute. reflexivity.
Qed.

Lemma boxDrawing_clean (glyphs : jsstring) :
  forallb isBoxDrawing glyphs = true ->
  forallb (fun c => negb (isWhiteSpace c)) glyphs = true.
Proof.
  rewrite !forallb_forall. intros H c Hc.
  now rewrite boxDrawing_not_space by auto.
Qed.

Lemma parseLine_border (glyphs : jsstring) :
  forallb isBoxDrawing glyphs = true ->
  parseLine (tableLineText (BorderLine glyphs)) = Normal [].
Proof.
  intros H. pose proof (boxDrawing_clean _ H) as Hclean.
  unfold parseLine. cbn [tableLineText].
  rewrite (trim_clean _ Hclean).
  destruct (skippedLine glyphs); [reflexivity|].
  unfold splitColumns. rewrite (splitColumns_from_clean [] _ Hclean).
  cbn [app]. rewrite (trim_clean _ Hclean).
  rewrite toLowerCase_plain.
  - destruct glyphs as [|c glyphs]; [reflexivity|].
    cbn in H. apply andb_prop in H as [Hc _].
    cbn [List.map]. rewrite (boxDrawing_lower _ Hc).
    assert ((c =? 115)%N = false) as Hs.
    { unfold isBoxDrawing in Hc. apply andb_prop in Hc as [Hc _].
      apply N.leb_le in Hc. apply N.eqb_neq. lia. }
    change (lit "soryn") with (115%N :: lit "oryn").
    cbn [startsWith]. now rewrite Hs.
  - rewrite forallb_forall in *. intros c Hc. unfold isPlain.
    rewrite (H c Hc). apply orb_true_r.
Qed.

Lemma parseLine_decoration (l : TableLine) :
  decoration l = true -> parseLine (tableLineText l) = Normal [].
Proof.
  destruct l; cbn [decoration]; intros H.
  - apply parseLine_header.
  - now apply parseLine_border.
  - discriminate.
Qed.

Lemma parseLines_decorations (ls : list TableLine) (found : list JSValue) :
  forallb decoration ls = true ->
  parseLines (List.map tableLineText ls) found = Normal found.
Proof.
  revert found; induction ls as [|l ls IH]; intros found H; [reflexivity|].
  cbn in H. apply andb_prop in H as [Hl Hls].
  cbn [List.map parseLines]. rewrite (parseLine_decoration l Hl).
  cbn. rewrite app_nil_r. now apply IH.
Qed.

Lemma parseLines_table (before after : list TableLine) (found : list JSValue) :
  forallb decoration before = true ->
  forallb decoration after = true ->
  parseLines (List.map tableLineText (before ++ DataLine :: after)) found
  = Normal (found ++ [dataRecord]).
Proof.
  intros Hb Ha. revert found. induction before as [|l ls IH]; intros found.
  - cbn [app List.map parseLines]. rewrite parseLine_data. cbn.
    now apply parseLines_decorations.
  - cbn in Hb. apply andb_prop in Hb as [Hl Hls].
    cbn [app List.map parseLines]. rewrite (parseLine_decoration l Hl).
    cbn. rewrite app_nil_r. now apply IH.
Qed.

Lemma tableLine_one_line (l : TableLine) :
  decoration l = true \/ l = DataLine ->
  forallb (fun c => negb (c =? 10)%N) (tableLineText l) = true.
Proof.
  destruct l; cbn [decoration tableLineText]; intros [H|H];
    try discriminate; try (vm_compute; reflexivity).
  rewrite forallb_forall in *. intros c Hc. specialize (H c Hc).
  unfold isBoxDrawing in H. apply andb_prop in H as [H _].
  apply N.leb_le in H. apply negb_true_iff, N.eqb_neq. lia.
Qed.

Lemma splitLines_joinLines (l : jsstring) (rest : list jsstring) (cur : jsstring) :
  Forall (fun l => forallb (fun c => negb (c =? 10)%N) l = true) (l :: rest) ->
  splitLines_from cur (joinLines (l :: rest)) = (cur ++ l) :: rest.
Proof.
  revert l cur. induction rest as [|l' rest IH]; intros l cur Hall.
  - cbn [joinLines]. apply splitLines_from_last. now inversion Hall.
  - change (joinLines (l :: l' :: rest)) with (l ++ 10%N :: joinLines (l' :: rest)).
    inversion Hall as [|? ? Hl Hrest]; subst.
    rewrite splitLines_from_line by assumption.
    f_equal. now rewrite IH.
Qed.

(** C8: a tabular dump made of the data line "Soryn-AAAAA-BBBBB  Used  2",
    header lines "Key   Status   Level" and border lines of box drawing
    glyphs, in any arrangement around the data line, parses to exactly one
    record, the one of the data line: key "Soryn-AAAAA-BBBBB", status
    "Used", level "2". *)
Theorem parseBackupText_table (before after : list TableLine) :
  forallb decoration before = true ->
  forallb decoration after = true ->
  parseBackupText (VStr (tableText (before ++ DataLine :: after)))
  = Normal [dataRecord].
Proof.
  intros Hb Ha. unfold parseBackupText, tableText, splitLines.
  destruct (List.map tableLineText (before ++ DataLine :: after)) as [|l rest] eqn:E.
  { destruct before; discriminate. }
  rewrite splitLines_joinLines.
  - cbn [app].
    exact (eq_trans (f_equal (fun ls => parseLines ls []) (eq_sym E))
                    (parseLines_table before after [] Hb Ha)).
  - apply List.Forall_forall. intros x Hx.
    assert (List.In x (List.map tableLineText (before ++ DataLine :: after))) as Hx'
      by (rewrite E; exact Hx).
    apply List.in_map_iff in Hx' as (tl & <- & Hin).
    apply tableLine_one_line. apply in_app_or in Hin as [Hin|[<-|Hin]].
    + left. rewrite forallb_forall in Hb. now apply Hb.
    + now right.
    + left. rewrite forallb_forall in Ha. now apply Ha.
Qed.

End ParserFacts.

(** The dump of the example: a top border, the header, a rule, the data
    line and a bottom border. *)
Lemma parseBackupText_table_witness :
  let top := BorderLine [9484; 9472; 9472; 9472; 9488]%N in
  let rule := BorderLine [9500; 9472; 9472; 9472; 9508]%N in
  let bottom := BorderLine [9492; 9472; 9472; 9472; 9496]%N in
  @parseBackupText exampleHost
    (VStr (tableText ([top; HeaderLine; rule] ++ DataLine :: [bottom])))
  = Normal [dataRecord].
Proof.
  intros top rule bottom.
  apply (@parseBackupText_table exampleHost [top; HeaderLine; rule] [bottom]);
    reflexivity.
Defined.

(** ** One reply to one create call *)

Section ReplyFacts.

Context {host : Host}.
Import JsString JsStringFacts.

Lemma lower_keeps_ascii_infix (message a b c : jsstring) :
  message = a ++ b ++ c ->
  forallb isAscii b = true ->
  includes (toLowerCase message) (List.map lowerUnit b) = true.
Proof.
  intros -> Hb. destruct (toLowerCase_infix a b c Hb) as (a' & c' & ->).
  apply includes_app.
Qed.

Lemma lower_already (message : jsstring) :
  includes message (lit "already exists") = true ->
  includes (toLowerCase message) (lit "already") = true.
Proof.
  intros H. destruct (includes_split _ _ H) as (a & c & E).
  apply (includes_shorter _ [] (lit "already") (lit " exists")).
  exact (lower_keeps_ascii_infix message a (lit "already exists") c E eq_refl).
Qed.

(** One failure reply whose message contains "already exists": [skipped]
    goes up by one and the route leaves the retry loop. *)
Lemma duplicate_reply_skips
    (items : list JSValue) (i : nat) (retries : Z) (params : UpstreamCall)
    (result ok : JSValue) (message : jsstring) (st : RestoreStatus) :
  getProp result (lit "success") = Normal ok ->
  truthy ok = false ->
  getProp result (lit "message") = Normal (VStr message) ->
  includes message (lit "already exists") = true ->
  resume items (AwaitAdd i retries params) (Resolved result) st
  = Suspended (incr_skipped st) (AwaitSleepItem i).
Proof.
  intros Hok Hfalsy Hmsg Hinc.
  unfold resume, add_verdict. rewrite Hok. cbn [mbind completion_bind].
  rewrite Hfalsy, Hmsg. cbn [mbind completion_bind].
  destruct message as [|c message]; [discriminate|].
  cbn [truthy call_toLowerCase mbind completion_bind].
  rewrite (lower_already _ Hinc). cbn [orb].
  unfold while_head. now rewrite andb_false_r.
Qed.

Lemma replay_app (items : list JSValue) (a b : list Outcome) (s : Step) :
  replay items (a ++ b) s = replay items b (replay items a s).
Proof.
  revert s. induction a as [|o a IH]; intros s; [reflexivity|].
  destruct s as [st p|st]; cbn [app replay]; [apply IH|].
  now destruct b.
Qed.

Lemma resume_retrying (items : list JSValue) (i : nat) (p : Await)
    (o : Outcome) (st : RestoreStatus) :
  retrying i p ->
  (exists p', resume items p o st = Suspended st p' /\ retrying i p')
  \/ past i (resume items p o st).
Proof.
  destruct p; cbn [retrying]; try contradiction; intros ->; cbn [resume].
  - destruct o as [result|m]; [|left; eexists; split; [reflexivity|reflexivity]].
    destruct (add_verdict result st) as [[st'|]|m].
    + right. unfold while_head. rewrite andb_false_r. cbn. lia.
    + left. eexists. split; reflexivity.
    + left. eexists. split; reflexivity.
  - unfold while_head. destruct (_ && _).
    + left. eexists. split; reflexivity.
    + right. cbn. lia.
  - destruct (retries - 1 =? 0)%Z eqn:E.
    + right. rewrite (proj1 (Z.eqb_eq _ _) E). cbn. lia.
    + unfold while_head. destruct (_ && _).
      * left. eexists. split; reflexivity.
      * right. cbn. lia.
Qed.

Lemma for_head_past (items : list JSValue) (i j : nat) (st : RestoreStatus) :
  i < j -> past i (for_head items j st).
Proof.
  intros H. unfold for_head.
  destruct (j <? length items); [|exact I].
  destruct (running st); cbn [negb]; [|exact I].
  destruct (readLicense _) as [[[key duration] level]|m]; [|exact I].
  destruct (makeParams key duration level) as [params|m]; [|exact I].
  unfold while_head. destruct (_ && _); cbn; lia.
Qed.

Lemma resume_past (items : list JSValue) (i : nat) (p : Await) (o : Outcome)
    (st : RestoreStatus) :
  past i (Suspended st p) -> past i (resume items p o st).
Proof.
  destruct p; cbn [past]; try contradiction; intros H; cbn [resume].
  - destruct o as [result|m]; [|exact H].
    destruct (add_verdict result st) as [[st'|]|m]; try exact H.
    unfold while_head. rewrite andb_false_r. cbn. lia.
  - unfold while_head. destruct (_ && _); cbn; lia.
  - unfold while_head. destruct (_ && _); cbn; lia.
  - destruct ((i0 + 1) mod 20 =? 0); [exact H|]. apply for_head_past. lia.
  - apply for_head_past. lia.
Qed.

Lemma replay_retrying (items : list JSValue) (i : nat) (outcomes : list Outcome)
    (st : RestoreStatus) (s : Step) :
  (exists p, s = Suspended st p /\ retrying i p) \/ past i s ->
  (exists p, replay items outcomes s = Suspended st p /\ retrying i p)
  \/ past i (replay items outcomes s).
Proof.
  revert s. induction outcomes as [|o outcomes IH]; intros s H.
  - destruct s; exact H.
  - destruct H as [(p & -> & Hp)|H].
    + cbn [replay]. apply IH. exact (resume_retrying items i p o st Hp).
    + destruct s as [st0 p|st0]; cbn [replay].
      * apply IH. right. now apply resume_past.
      * right. exact I.
Qed.

(** C7: take the route in the retry loop of a record, from the first create
    call on (three attempts left), through any replies, failures and pauses
    that bring it to a further create call for the same record. If the
    reply to that call is a failure whose message contains "already
    exists", the route adds one to [skipped], leaves [success] and [failed]
    (and the rest of the snapshot) as they were when the record was taken
    up, and goes to the pause that follows the retry loop: no further
    create call is made for the record. *)
Theorem already_exists_is_skipped
    (items : list JSValue) (i : nat) (params params' : UpstreamCall)
    (earlier : list Outcome) (retries : Z)
    (result ok : JSValue) (message : jsstring) (st st' : RestoreStatus) :
  replay items earlier (Suspended st (AwaitAdd i 3 params))
  = Suspended st' (AwaitAdd i retries params') ->
  getProp result (lit "success") = Normal ok ->
  truthy ok = false ->
  getProp result (lit "message") = Normal (VStr message) ->
  includes message (lit "already exists") = true ->
  replay items (earlier ++ [Resolved result]) (Suspended st (AwaitAdd i 3 params))
  = Suspended (incr_skipped st) (AwaitSleepItem i)
  /\ skipped (incr_skipped st) = S (skipped st)
  /\ success (incr_skipped st) = success st
  /\ failed (incr_skipped st) = failed st
  /\ issued (AwaitSleepItem i) = None.
Proof.
  intros Hearlier Hok Hfalsy Hmsg Hinc. repeat split.
  assert (st' = st) as ->.
  { destruct (replay_retrying items i earlier st (Suspended st (AwaitAdd i 3 params)))
      as [(p & Hp & _)|Hpast].
    - left. eexists. split; reflexivity.
    - rewrite Hearlier in Hp. now injection Hp.
    - rewrite Hearlier in Hpast. cbn in Hpast. lia. }
  rewrite replay_app, Hearlier. cbn [replay].
  now apply (duplicate_reply_skips items i retries params' result ok message).
Qed.

(** The loop test with nothing left to retry falls through to the pause,
    and touches no counter. *)
Lemma while_head_exhausted (i : nat) (params : UpstreamCall) (st : RestoreStatus) :
  while_head i 0 false params st = Suspended st (AwaitSleepItem i).
Proof. reflexivity. Qed.


End ReplyFacts.

(** A record whose first create call is rate limited and whose second one
    finds the key in place. *)
Lemma already_exists_is_skipped_witness :
  let params := AddKey (VStr (lit "Soryn-AAAAA-BBBBB")) (VNum 999999999) (VStr (lit "1")) in
  @replay exampleHost [keyed "Soryn-AAAAA-BBBBB"]
    ([replyFailure "Rate limit exceeded"; timer] ++ [replyFailure "Key already exists"])
    (Suspended (resetStatus 1) (AwaitAdd 0 3 params))
  = Suspended (incr_skipped (resetStatus 1)) (AwaitSleepItem 0).
Proof.
  intros params.
  apply (@already_exists_is_skipped exampleHost [keyed "Soryn-AAAAA-BBBBB"] 0
           params params [replyFailure "Rate limit exceeded"; timer] 2
           (VObj [(lit "success", VBool false);
                  (lit "message", VStr (lit "Key already exists"))])
           (VBool false) (lit "Key already exists") (resetStatus 1) (resetStatus 1));
    reflexivity.
Defined.


(** ** Rate limiting *)

Section RateLimitFacts.

Context {host : Host}.

Lemma rate_limited_reply_backs_off
    (items : list JSValue) (i : nat) (retries : Z) (params : UpstreamCall)
    (st : RestoreStatus) :
  resume items (AwaitAdd i retries params) (replyFailure "Rate limit exceeded") st
  = Suspended st (AwaitSleepRate i retries params).
Proof.
  unfold resume, add_verdict, replyFailure.
  cbn [getProp lookupProp JsString.eqb mbind completion_bind truthy
       call_toLowerCase].
  replace (JsString.eqb (lit "success") (lit "success")) with true
    by (vm_compute; reflexivity).
  cbn [truthy].
  replace (JsString.eqb (lit "success") (lit "message")) with false
    by (vm_compute; reflexivity).
  replace (JsString.eqb (lit "message") (lit "message")) with true
    by (vm_compute; reflexivity).
  replace (truthy (VStr (lit "Rate limit exceeded"))) with true
    by (vm_compute; reflexivity).
  cbn [call_toLowerCase mbind completion_bind].
  rewrite toLowerCase_plain by reflexivity.
  replace (List.map JsString.lowerUnit (lit "Rate limit exceeded"))
    with (lit "rate limit exceeded") by (vm_compute; reflexivity).
  replace (JsString.includes (lit "rate limit exceeded") (lit "already")) with false
    by (vm_compute; reflexivity).
  replace (JsString.includes (lit "rate limit exceeded") (lit "exists")) with false
    by (vm_compute; reflexivity).
  replace (JsString.includes (lit "rate limit exceeded") (lit "duplicate")) with false
    by (vm_compute; reflexivity).
  replace (JsString.includes (lit "rate limit exceeded") (lit "rate")) with true
    by (vm_compute; reflexivity).
  reflexivity.
Qed.

(** C2, as the code has it: from the first create call of a record, three
    rate-limit replies use up the three attempts, each after the pause of
    [AwaitSleepRate], and the route reaches the pause after the retry loop
    with [restoreStatus] exactly as it was: [failed] is not incremented,
    and neither is [success] or [skipped]. *)
Theorem rate_limit_exhaustion_counts_nothing
    (items : list JSValue) (i : nat) (params : UpstreamCall) (st : RestoreStatus) :
  let limited := replyFailure "Rate limit exceeded" in
  resume items (AwaitAdd i 3 params) limited st
  = Suspended st (AwaitSleepRate i 3 params)
  /\ resume items (AwaitSleepRate i 3 params) timer st
     = Suspended st (AwaitAdd i 2 params)
  /\ resume items (AwaitAdd i 2 params) limited st
     = Suspended st (AwaitSleepRate i 2 params)
  /\ resume items (AwaitSleepRate i 2 params) timer st
     = Suspended st (AwaitAdd i 1 params)
  /\ resume items (AwaitAdd i 1 params) limited st
     = Suspended st (AwaitSleepRate i 1 params)
  /\ resume items (AwaitSleepRate i 1 params) timer st
     = Suspended st (AwaitSleepItem i)
  /\ replay items [limited; timer; limited; timer; limited; timer]
       (Suspended st (AwaitAdd i 3 params))
     = Suspended st (AwaitSleepItem i).
Proof.
  cbv zeta. cbn [replay]. rewrite ?rate_limited_reply_backs_off.
  change (resume items (AwaitSleepRate i 3 params) timer st)
    with (Suspended st (AwaitAdd i 2 params)).
  cbn [replay]. rewrite ?rate_limited_reply_backs_off.
  change (resume items (AwaitSleepRate i 2 params) timer st)
    with (Suspended st (AwaitAdd i 1 params)).
  cbn [replay]. rewrite ?rate_limited_reply_backs_off.
  repeat split.
Qed.

(** The sibling path: the third thrown error in a row does count. *)
Lemma error_exhaustion_counts_failed
    (items : list JSValue) (i : nat) (params : UpstreamCall) (st : RestoreStatus)
    (m : jsstring) :
  resume items (AwaitAdd i 1 params) (Rejected m) st
  = Suspended st (AwaitSleepError i 1 params)
  /\ resume items (AwaitSleepError i 1 params) timer st
     = Suspended (incr_failed st) (AwaitSleepItem i).
Proof. split; reflexivity. Qed.

End RateLimitFacts.

(** One item whose create call is answered three times by a rate-limit
    failure: the job ends with the item processed and no counter moved. *)
Lemma rate_limited_item_uncounted :
  let events :=
    [ PostRestore (restoreBody [keyed "Soryn-AAAAA-BBBBB"] false);
      Settle 0 (replyFailure "Rate limit exceeded"); Settle 0 timer;
      Settle 0 (replyFailure "Rate limit exceeded"); Settle 0 timer;
      Settle 0 (replyFailure "Rate limit exceeded"); Settle 0 timer;
      Settle 0 timer ] in
  let w := @run exampleHost events connected in
  pending w = ∅
  /\ restoreStatus w = Status false 1 1 0 0 0 (VStr (lit "Complete")) None
  /\ length (upstream w) = 3.
Proof. vm_compute. repeat split. Qed.

(** ** Starting a restore *)

Section StartFacts.

Context {host : Host}.

Lemma post_restore_while_running (body : JSValue) (w : World) :
  keyLoaded (SELLER_KEY w) = true ->
  running (restoreStatus w) = true ->
  post_restore body w
  = (with_status (catch_handler (lit "Restore already in progress") (restoreStatus w)) w,
     RFailure (lit "Restore already in progress")).
Proof.
  intros Hkey Hrun. unfold post_restore, checkRestore. now rewrite Hkey, Hrun.
Qed.

(** C1, as the code has it: a job of two records is running (its first
    create call is out); a second restore request is answered with
    'Restore already in progress', and the [catch] that produces the answer
    also sets [running] to false and [error] to that message in the
    snapshot of the first job; when the first job resumes it finds
    [running] false and ends as 'Stopped by user' with one record of two
    processed. *)
Theorem second_start_clears_running :
  let items := [parsedRecord "Soryn-A"; parsedRecord "Soryn-B"] in
  let w1 := step (PostRestore (restoreBody items false)) connected in
  let second := handle (PostRestore (restoreBody [parsedRecord "Soryn-C"] false)) w1 in
  restoreStatus w1 = Status true 2 1 0 0 0 (VStr (lit "Soryn-A")) None
  /\ snd second = Some (RFailure (lit "Restore already in progress"))
  /\ restoreStatus (fst second)
     = Status false 2 1 0 0 0 (VStr (lit "Soryn-A"))
              (Some (lit "Restore already in progress"))
  /\ restoreStatus (run [Settle 0 replyOk; Settle 0 timer] (fst second))
     = Status false 2 1 1 0 0 (VStr (lit "Complete")) (Some (lit "Stopped by user")).
Proof. vm_compute. repeat split. Qed.

(** C5, amended: with a seller key and no job running, a request whose
    [licenses] is falsy or not an array is answered with 'Invalid licenses
    data'; [running], [total], [processed], [success], [skipped],
    [failed] and [currentKey] keep their values, no invocation is left
    suspended and no upstream call is made. *)
Theorem invalid_licenses_rejected (body licenses : JSValue) (w : World) :
  keyLoaded (SELLER_KEY w) = true ->
  running (restoreStatus w) = false ->
  getProp body (lit "licenses") = Normal licenses ->
  truthy licenses && isArray licenses = false ->
  let w' := fst (post_restore body w) in
  snd (post_restore body w) = RFailure (lit "Invalid licenses data")
  /\ running (restoreStatus w') = running (restoreStatus w)
  /\ total (restoreStatus w') = total (restoreStatus w)
  /\ processed (restoreStatus w') = processed (restoreStatus w)
  /\ success (restoreStatus w') = success (restoreStatus w)
  /\ skipped (restoreStatus w') = skipped (restoreStatus w)
  /\ failed (restoreStatus w') = failed (restoreStatus w)
  /\ currentKey (restoreStatus w') = currentKey (restoreStatus w)
  /\ pending w' = pending w
  /\ upstream w' = upstream w.
Proof.
  intros Hkey Hrun Hlic Hbad.
  assert (checkRestore body w = Throw (lit "Invalid licenses data")) as E.
  { unfold checkRestore. rewrite Hkey, Hrun, Hlic. cbn [negb mbind completion_bind].
    assert (exists v, getProp body (lit "wipeFirst") = Normal v) as [v ->].
    { destruct body; try discriminate; cbn; eauto. }
    cbn [mbind completion_bind].
    rewrite <- negb_andb, Hbad. reflexivity. }
  unfold post_restore. rewrite E. cbn. rewrite Hrun. repeat split; reflexivity.
Qed.

End StartFacts.

Lemma invalid_licenses_rejected_witness :
  snd (@post_restore exampleHost (VObj [(lit "licenses", VStr (lit "Soryn-A"))]) connected)
  = RFailure (lit "Invalid licenses data").
Proof.
  apply (@invalid_licenses_rejected exampleHost
           (VObj [(lit "licenses", VStr (lit "Soryn-A"))])
           (VStr (lit "Soryn-A")) connected);
    reflexivity.
Defined.

(** C5 as stated fails: after a finished job of two records, a request with
    an empty list is accepted, and so is one whose only record has no key;
    both replace the snapshot. *)
Lemma empty_list_is_accepted :
  let before := Status false 2 2 2 0 0 (VStr (lit "Complete")) None in
  let w := {| SELLER_KEY := Some (lit "seller"); restoreStatus := before;
              pending := ∅; nextId := 1; upstream := [] |} in
  let emptyList := @post_restore exampleHost (restoreBody [] false) w in
  let record := VObj [(lit "status", VStr (lit "Used")); (lit "duration", VNum 86400)] in
  let noKey := @post_restore exampleHost (restoreBody [record] false) w in
  snd emptyList = RStarted 0
  /\ restoreStatus (fst emptyList) = Status false 0 0 0 0 0 (VStr (lit "Complete")) None
  /\ restoreStatus (fst emptyList) <> before
  /\ snd noKey = RStarted 1
  /\ restoreStatus (fst noKey) = Status true 1 1 0 0 0 VUndefined None
  /\ restoreStatus (fst noKey) <> before.
Proof. vm_compute. repeat split; discriminate. Qed.

(** ** Parsing a backup *)

Section ParseBackupFacts.

Context {host : Host}.

(** C9, amended: when the content parses as a JSON object, the reply
    carries the value of its [licenses] property if that is truthy,
    otherwise the value of its [keys] property if that is truthy,
    otherwise an empty list, under the format tag 'json'. The value is
    passed on as it is: nothing is dropped from it. *)
Theorem parse_backup_json_object
    (body content : JSValue) (props : list (jsstring * JSValue)) :
  getProp body (lit "content") = Normal content ->
  JSON_parse content = Some (VObj props) ->
  post_parse_backup body
  = RLicenses (or_else (lookupProp (lit "licenses") props)
                       (or_else (lookupProp (lit "keys") props) (VArr [])))
              (lit "json").
Proof.
  intros Hc Hj. unfold post_parse_backup, extractLicenses, or_else.
  rewrite Hc, Hj. cbn [getProp mbind completion_bind isArray].
  destruct (truthy (lookupProp (lit "licenses") props)); [reflexivity|].
  destruct (truthy (lookupProp (lit "keys") props)); reflexivity.
Qed.

(** On an array, [json.keys] is the method every array inherits, which is
    truthy: the test [Array.isArray(json)] behind it is never reached. *)
Lemma extractLicenses_array (items : list JSValue) :
  extractLicenses (VArr items) = Normal (VFun (lit "keys")).
Proof. reflexivity. Qed.

End ParseBackupFacts.

Lemma parse_backup_json_object_witness :
  @post_parse_backup backupHost (VObj [(lit "content", VStr keylessBackupText)])
  = RLicenses (VArr [keylessRecord]) (lit "json").
Proof.
  apply (@parse_backup_json_object backupHost
           (VObj [(lit "content", VStr keylessBackupText)])
           (VStr keylessBackupText) [(lit "licenses", VArr [keylessRecord])]);
    reflexivity.
Defined.

(** C9 as stated fails: the record of the backup
    [{"licenses":[{"status":"Used"}]}] has no key, and the reply holds it. *)
Lemma keyless_record_is_returned :
  getProp (host := backupHost) keylessRecord (lit "key") = Normal VUndefined
  /\ @post_parse_backup backupHost (VObj [(lit "content", VStr keylessBackupText)])
     = RLicenses (VArr [keylessRecord]) (lit "json").
Proof. vm_compute. split; reflexivity. Qed.

(** ** The counters along a run *)

Section CounterFacts.

Context {host : Host}.

Lemma waiting_counts_ok (items : list JSValue) (p : Await) (st : RestoreStatus) :
  waiting_ok items p st -> counts_ok st.
Proof.
  unfold waiting_ok, counts_ok, tally. intros [Ht H].
  destruct p; lia.
Qed.

Lemma add_verdict_counted (result : JSValue) (st st' : RestoreStatus) :
  add_verdict result st = Normal (Counted st') ->
  st' = incr_success st \/ st' = incr_skipped st \/ st' = incr_failed st.
Proof.
  unfold add_verdict. destruct (getProp result (lit "success")) as [ok|]; [|discriminate].
  cbn [mbind completion_bind]. destruct (truthy ok); [intros [= <-]; auto|].
  destruct (getProp result (lit "message")) as [message|]; [|discriminate].
  cbn [mbind completion_bind]. destruct (truthy message); [|intros [= <-]; auto].
  destruct (call_toLowerCase message) as [msg|]; [|discriminate].
  cbn [mbind completion_bind].
  repeat match goal with
         | |- context [if ?b then _ else _] => destruct b
         end; intros [= <-]; auto.
Qed.

Lemma while_head_ok (items : list JSValue) (i : nat) (retries : Z) (added : bool)
    (params : UpstreamCall) (st : RestoreStatus) :
  total st = length items -> i < length items -> processed st = i + 1 ->
  (if added then tally st <= i + 1 else tally st <= i) ->
  step_ok items (while_head i retries added params st).
Proof.
  intros Ht Hi Hp Hc. unfold while_head, step_ok, waiting_ok.
  destruct (_ && _) eqn:E.
  - apply andb_prop in E as [_ E]. destruct added; [discriminate|]. auto.
  - destruct added; repeat split; auto; lia.
Qed.

Lemma for_head_ok (items : list JSValue) (i : nat) (st : RestoreStatus) :
  total st = length items -> processed st = i -> tally st <= i -> i <= length items ->
  step_ok items (for_head items i st).
Proof.
  intros Ht Hp Hc Hi. unfold for_head.
  destruct (i <? length items) eqn:E.
  - apply Nat.ltb_lt in E.
    destruct (running st); cbn [negb].
    + destruct (readLicense _) as [[[key duration] level]|m].
      * destruct (makeParams key duration level) as [params|m].
        -- apply while_head_ok; cbn; auto.
        -- unfold step_ok, counts_ok, tally in *. cbn. lia.
      * unfold step_ok, counts_ok, tally in *. cbn. lia.
    + unfold step_ok, counts_ok, tally in *. cbn. lia.
  - unfold step_ok, counts_ok, tally in *. cbn. lia.
Qed.

Lemma resume_ok (items : list JSValue) (p : Await) (outcome : Outcome)
    (st : RestoreStatus) :
  waiting_ok items p st -> step_ok items (resume items p outcome st).
Proof.
  intros [Ht H]. destruct p; cbn [resume].
  - destruct outcome; cbn; unfold waiting_ok, counts_ok, tally in *; cbn; auto; lia.
  - cbn. unfold waiting_ok. auto.
  - destruct outcome; cbn; unfold waiting_ok, counts_ok, tally in *; cbn; auto; lia.
  - apply for_head_ok; lia.
  - destruct H as (Hi & Hp & Hc).
    assert (waiting_ok items (AwaitSleepError i retries params) st) as Herr
      by (unfold waiting_ok; auto).
    assert (waiting_ok items (AwaitSleepRate i retries params) st) as Hrate
      by (unfold waiting_ok; auto).
    destruct outcome as [result|m]; [|exact Herr].
    destruct (add_verdict result st) as [[st'|]|m] eqn:E; [|exact Hrate|exact Herr].
    apply add_verdict_counted in E.
    apply while_head_ok; unfold tally in *;
      destruct E as [ -> | [ -> | -> ] ]; cbn; auto; lia.
  - destruct H as (Hi & Hp & Hc). apply while_head_ok; auto.
  - destruct H as (Hi & Hp & Hc).
    destruct (retries - 1 =? 0)%Z eqn:E.
    + rewrite (proj1 (Z.eqb_eq _ _) E).
      unfold while_head, step_ok, waiting_ok, tally in *. cbn. repeat split; auto; lia.
    + apply while_head_ok; auto.
  - destruct H as (Hi & Hp & Hc).
    destruct ((i + 1) mod 20 =? 0).
    + cbn. unfold waiting_ok. auto.
    + apply for_head_ok; lia.
  - destruct H as (Hi & Hp & Hc). apply for_head_ok; lia.
Qed.

End CounterFacts.

Section RunFacts.

Context {host : Host}.

Lemma restoreStatus_install (id : nat) (items : list JSValue) (s : Step) (w : World) :
  restoreStatus (install id items s w) = status_of s.
Proof. now destruct s. Qed.

Lemma counts_le_refl (st : RestoreStatus) : counts_le st st.
Proof. unfold counts_le. lia. Qed.

Lemma while_head_status (i : nat) (retries : Z) (added : bool)
    (params : UpstreamCall) (st : RestoreStatus) :
  status_of (while_head i retries added params st) = st.
Proof. unfold while_head. now destruct (_ && _). Qed.

Lemma for_head_monotone (items : list JSValue) (i : nat) (st : RestoreStatus) :
  counts_le st (status_of (for_head items i st)).
Proof.
  unfold for_head, counts_le.
  destruct (i <? length items); [|cbn; lia].
  destruct (running st); cbn [negb]; [|cbn; lia].
  destruct (readLicense _) as [[[key duration] level]|m]; [|cbn; lia].
  destruct (makeParams key duration level) as [params|m]; [|cbn; lia].
  rewrite while_head_status. cbn. lia.
Qed.

Lemma resume_monotone (items : list JSValue) (p : Await) (outcome : Outcome)
    (st : RestoreStatus) :
  counts_le st (status_of (resume items p outcome st)).
Proof.
  destruct p; cbn [resume];
    try apply for_head_monotone;
    try (rewrite while_head_status; apply counts_le_refl);
    try (destruct outcome; unfold counts_le; cbn; lia).
  - destruct outcome as [result|m]; [|apply counts_le_refl].
    destruct (add_verdict result st) as [[st'|]|m] eqn:E;
      try apply counts_le_refl.
    rewrite while_head_status. apply add_verdict_counted in E.
    unfold counts_le. destruct E as [ -> | [ -> | -> ] ]; cbn; lia.
  - rewrite while_head_status. unfold counts_le.
    destruct (retries - 1 =? 0)%Z; cbn; lia.
  - destruct ((i + 1) mod 20 =? 0); [apply counts_le_refl|apply for_head_monotone].
Qed.

(** But for an accepted restart, no event lowers a counter. *)
Lemma step_monotone (e : Event) (w : World) :
  is_restart e = false ->
  counts_le (restoreStatus w) (restoreStatus (step e w)).
Proof.
  destruct e as [| |body|id outcome]; intros H; try discriminate.
  - apply counts_le_refl.
  - unfold counts_le. cbn. lia.
  - unfold step, handle, settle. cbn [fst].
    destruct (pending w !! id) as [t|]; [|apply counts_le_refl].
    rewrite restoreStatus_install. apply resume_monotone.
Qed.

Lemma install_solo_ok (id : nat) (items : list JSValue) (s : Step) (w : World) :
  pending w = ∅ \/ (exists t, pending w = {[id := t]}) ->
  step_ok items s ->
  solo_ok (install id items s w).
Proof.
  intros Hp Hs. destruct s as [st p|st]; cbn in Hs.
  - right. exists id, {| licenses := items; point := p |}. split; [|exact Hs].
    cbn. destruct Hp as [->|[t ->]].
    + apply insert_empty.
    + apply insert_singleton_eq.
  - left. split; [|exact Hs].
    cbn. destruct Hp as [->|[t ->]].
    + apply delete_empty.
    + apply delete_singleton_eq.
Qed.

Lemma solo_ok_status (st : RestoreStatus) (w : World) :
  solo_ok w ->
  total st = total (restoreStatus w) -> processed st = processed (restoreStatus w) ->
  success st = success (restoreStatus w) -> skipped st = skipped (restoreStatus w) ->
  failed st = failed (restoreStatus w) ->
  solo_ok (with_status st w).
Proof.
  intros [[Hp Hc]|(id & t & Hp & Hw)] Ht Hpr Hs Hk Hf.
  - left. split; [exact Hp|]. unfold counts_ok in *. cbn. lia.
  - right. exists id, t. split; [exact Hp|].
    unfold waiting_ok, tally in *. cbn. rewrite Ht, Hpr, Hs, Hk, Hf. exact Hw.
Qed.

Lemma step_solo_ok (e : Event) (w : World) :
  solo_ok w ->
  match e with
  | PostRestore body => accepts body w = true -> pending w = ∅
  | _ => True
  end ->
  solo_ok (step e w).
Proof.
  intros Hw He. destruct e as [| |body|id outcome]; unfold step, handle; cbn [fst].
  - exact Hw.
  - unfold post_stop. cbn [fst]. now apply solo_ok_status.
  - unfold post_restore, accepts in *.
    destruct (checkRestore body w) as [[items wipeFirst]|m]; cbn [fst].
    + specialize (He eq_refl). apply install_solo_ok; [now left|].
      destruct (truthy wipeFirst).
      * cbn. unfold waiting_ok, tally. cbn. auto.
      * apply for_head_ok; cbn; lia.
    + now apply solo_ok_status.
  - unfold settle. destruct (pending w !! id) as [t|] eqn:E; [|exact Hw].
    destruct Hw as [[Hp Hc]|(id' & t' & Hp & Hw)].
    + rewrite Hp in E. now rewrite lookup_empty in E.
    + rewrite Hp in E. apply lookup_singleton_Some in E as [<- <-].
      apply install_solo_ok; [right; eauto|]. now apply resume_ok.
Qed.

Lemma run_solo_ok (events : list Event) (w : World) :
  orderly events w -> solo_ok w -> solo_ok (run events w).
Proof.
  revert w. induction events as [|e events IH]; intros w Ho Hw; [exact Hw|].
  destruct Ho as [He Ho]. cbn [run fold_left]. apply IH; [exact Ho|].
  now apply step_solo_ok.
Qed.

Lemma solo_counts_ok (w : World) : solo_ok w -> counts_ok (restoreStatus w).
Proof.
  intros [[_ H]|(id & t & _ & H)]; [exact H|].
  eapply waiting_counts_ok, H.
Qed.

Lemma orderly_prefix (seen rest : list Event) (w : World) :
  orderly (seen ++ rest) w -> orderly seen w.
Proof.
  revert w. induction seen as [|e seen IH]; intros w H; [exact I|].
  destruct H as [He H]. split; [exact He|]. now apply IH.
Qed.

(** C3, amended: take any run in which a restore request is accepted only
    when no earlier invocation of the restore route is still suspended,
    from a server with no suspended invocation and consistent counters (as
    after start-up). At every point of the run the snapshot has
    [success + skipped + failed <= processed <= total] (so the sum of the
    three counters is at most [total]), and an event other than a restore
    request lowers none of [success], [skipped] and [failed]. *)
Theorem counts_invariant (seen rest : list Event) (w : World) :
  pending w = ∅ ->
  counts_ok (restoreStatus w) ->
  orderly (seen ++ rest) w ->
  let st := restoreStatus (run seen w) in
  success st + skipped st + failed st <= processed st
  /\ processed st <= total st
  /\ success st + skipped st + failed st <= total st
  /\ forall e : Event,
       is_restart e = false ->
       counts_le st (restoreStatus (step e (run seen w))).
Proof.
  intros Hp Hc Ho st.
  assert (counts_ok st) as [H1 H2].
  { apply solo_counts_ok, run_solo_ok; [exact (orderly_prefix _ _ _ Ho)|]. now left. }
  split; [exact H1|]. split; [exact H2|]. split; [lia|].
  intros e He. exact (step_monotone e (run seen w) He).
Qed.

End RunFacts.

(** A job of two records, polled after the first reply; its second record
    is a duplicate, and it is stopped during the last pause. *)
Lemma counts_invariant_witness :
  let seen :=
    [ PostRestore (restoreBody [keyed "Soryn-A"; keyed "Soryn-B"] false);
      Settle 0 replyOk; GetStatus ] in
  let rest :=
    [ Settle 0 timer; Settle 0 (replyFailure "Key already exists"); PostStop;
      Settle 0 timer ] in
  let st := restoreStatus (@run exampleHost seen connected) in
  success st + skipped st + failed st <= processed st /\ processed st <= total st.
Proof.
  intros seen rest st.
  assert (orderly (host := exampleHost) (seen ++ rest) connected) as Ho.
  { vm_compute. repeat split; intros; reflexivity. }
  destruct (@counts_invariant exampleHost seen rest connected eq_refl
              (conj (Nat.le_refl 0) (Nat.le_refl 0)) Ho) as (H1 & H2 & _).
  exact (conj H1 H2).
Defined.

(** C3 as stated fails: a job of three records is stopped during the pause
    after its first record, and a job of one record is started before the
    first one wakes up. The new request resets the snapshot and sets
    [running] again; the first invocation then finds [running] true and
    goes on with its own second record: [processed] is 2 with [total] 1,
    and once both invocations have had a success reply, [success] is 2. *)
Lemma overlapping_jobs_break_counts :
  let events :=
    [ PostRestore (restoreBody [keyed "Soryn-A"; keyed "Soryn-B"; keyed "Soryn-C"] false);
      Settle 0 replyOk; PostStop;
      PostRestore (restoreBody [keyed "Soryn-D"] false);
      Settle 0 timer ] in
  let st := restoreStatus (@run exampleHost events connected) in
  let st' :=
    restoreStatus (@run exampleHost (events ++ [Settle 0 replyOk; Settle 1 replyOk])
                        connected) in
  st = Status true 1 2 0 0 0 (VStr (lit "Soryn-B")) None
  /\ ~ processed st <= total st
  /\ st' = Status true 1 2 2 0 0 (VStr (lit "Soryn-B")) None
  /\ ~ success st' + skipped st' + failed st' <= total st'.
Proof.
  cbv zeta. repeat split; try (vm_compute; reflexivity); vm_compute; lia.
Qed.

(** ** The wipe and the run to the end of the list *)

Section ProgressFacts.

Context {host : Host}.

Lemma primitive_stringifies (v : JSValue) : primitive v = true -> stringifies v = true.
Proof. now destruct v. Qed.

Lemma readLicense_shaped (license : JSValue) :
  recordShaped license = true ->
  exists key duration level,
    readLicense license = Normal (key, duration, level)
    /\ makeParams key duration level = Normal (AddKey key duration level).
Proof.
  destruct license as [| | | | | |props|]; try discriminate. cbn [recordShaped].
  destruct (lookupProp (lit "key") props) as [| | | |k| | |] eqn:Ek; try discriminate.
  intros H. apply andb_prop in H as [Hd Hl].
  unfold readLicense. cbn [getProp mbind completion_bind]. rewrite Ek.
  set (d := lookupProp (lit "duration") props) in *.
  set (l := lookupProp (lit "level") props) in *.
  assert (stringifies (or_else l (VStr (lit "1"))) = true) as Hlevel.
  { unfold or_else. destruct (truthy l); [now apply primitive_stringifies|reflexivity]. }
  destruct (truthy d) eqn:Ed.
  - cbn [mbind completion_bind]. eexists _, _, _. split; [reflexivity|].
    unfold makeParams. now rewrite (primitive_stringifies d Hd), Hlevel.
  - destruct (parseDurationFromKeyName_string k) as [n Hn]. rewrite Hn.
    cbn [mbind completion_bind]. eexists _, _, _. split; [reflexivity|].
    unfold makeParams. now rewrite Hlevel.
Qed.

Lemma for_head_progress (items : list JSValue) (i : nat) (st : RestoreStatus) :
  forallb recordShaped items = true ->
  running st = true -> error st = None -> total st = length items ->
  processed st = i -> i <= length items ->
  match for_head items i st with
  | Finished st' => completed items st'
  | Suspended st' p => progressing items p st' /\ budget items p <= 8 * (length items - i)
  end.
Proof.
  intros Hshape Hrun Herr Ht Hp Hi. unfold for_head.
  destruct (i <? length items) eqn:E.
  - apply Nat.ltb_lt in E. rewrite Hrun. cbn [negb].
    destruct (lookup_lt_is_Some_2 items i E) as [license Hl]. rewrite Hl.
    change (default VUndefined (Some license)) with license.
    assert (recordShaped license = true) as Hs.
    { rewrite forallb_forall in Hshape. apply Hshape.
      apply list_elem_of_In. eapply list_elem_of_lookup_2, Hl. }
    destruct (readLicense_shaped license Hs) as (key & duration & level & -> & ->).
    unfold while_head. cbn [Z.ltb Z.compare andb negb].
    unfold progressing. cbn. repeat split; auto; lia.
  - apply Nat.ltb_ge in E. unfold completed. cbn. repeat split; auto; lia.
Qed.

Lemma while_head_progress (items : list JSValue) (i : nat) (retries : Z)
    (added : bool) (params : UpstreamCall) (st : RestoreStatus) (bound : nat) :
  running st = true -> error st = None -> total st = length items ->
  i < length items -> processed st = i + 1 -> (0 <= retries <= 3)%Z ->
  2 * Z.to_nat retries + 3 + 8 * (length items - (i + 1)) <= bound ->
  match while_head i retries added params st with
  | Finished st' => completed items st'
  | Suspended st' p => progressing items p st' /\ budget items p < bound
  end.
Proof.
  intros Hrun Herr Ht Hi Hp Hr Hb. unfold while_head.
  destruct (_ && _) eqn:E.
  - apply andb_prop in E as [E _]. apply Z.ltb_lt in E.
    unfold progressing. cbn. repeat split; auto; lia.
  - unfold progressing. cbn. repeat split; auto; lia.
Qed.

Lemma resume_progress (items : list JSValue) (p : Await) (outcome : Outcome)
    (st : RestoreStatus) :
  forallb recordShaped items = true ->
  progressing items p st ->
  match resume items p outcome st with
  | Finished st' => completed items st'
  | Suspended st' p' => progressing items p' st' /\ budget items p' < budget items p
  end.
Proof.
  intros Hshape (Hrun & Herr & Ht & H).
  destruct p; cbn [resume]; try contradiction.
  - destruct H as (Hi & Hp & Hr).
    assert (progressing items (AwaitSleepError i retries params) st
            /\ budget items (AwaitSleepError i retries params)
               < budget items (AwaitAdd i retries params)) as Herror
      by (unfold progressing; cbn; repeat split; auto; lia).
    assert (progressing items (AwaitSleepRate i retries params) st
            /\ budget items (AwaitSleepRate i retries params)
               < budget items (AwaitAdd i retries params)) as Hrate
      by (unfold progressing; cbn; repeat split; auto; lia).
    destruct outcome as [result|m]; [|exact Herror].
    destruct (add_verdict result st) as [[st'|]|m] eqn:E; [|exact Hrate|exact Herror].
    apply add_verdict_counted in E.
    unfold while_head. rewrite andb_false_r.
    unfold progressing.
    destruct E as [ -> | [ -> | -> ] ]; cbn; repeat split; auto; lia.
  - destruct H as (Hi & Hp & Hr).
    apply while_head_progress; auto; cbn; lia.
  - destruct H as (Hi & Hp & Hr).
    destruct (retries - 1 =? 0)%Z; apply while_head_progress; auto; cbn; lia.
  - destruct H as (Hi & Hp).
    destruct ((i + 1) mod 20 =? 0).
    + unfold progressing. cbn. repeat split; auto; lia.
    + pose proof (for_head_progress items (i + 1) st Hshape Hrun Herr Ht Hp) as F.
      destruct (for_head items (i + 1) st); [|apply F; lia].
      destruct F as [F1 F2]; [lia|]. split; [exact F1|]. cbn. lia.
  - destruct H as (Hi & Hp).
    pose proof (for_head_progress items (i + 1) st Hshape Hrun Herr Ht Hp) as F.
    destruct (for_head items (i + 1) st); [|apply F; lia].
    destruct F as [F1 F2]; [lia|]. split; [exact F1|]. cbn. lia.
Qed.

End ProgressFacts.

Section DriveFacts.

Context {host : Host}.

Lemma run_cons (e : Event) (events : list Event) (w : World) :
  run (e :: events) w = run events (step e w).
Proof. reflexivity. Qed.

Lemma step_settle (id : nat) (outcome : Outcome) (w : World) :
  step (Settle id outcome) w = settle id outcome w.
Proof. reflexivity. Qed.

Lemma settle_idle (id : nat) (outcome : Outcome) (w : World) :
  pending w = ∅ -> settle id outcome w = w.
Proof. intros H. unfold settle. now rewrite H, lookup_empty. Qed.

Lemma run_settle_idle (id : nat) (outcomes : list Outcome) (w : World) :
  pending w = ∅ -> run (List.map (Settle id) outcomes) w = w.
Proof.
  intros H. induction outcomes as [|o outcomes IH]; [reflexivity|].
  cbn [List.map]. rewrite run_cons, step_settle.
  rewrite settle_idle by exact H. exact IH.
Qed.

Lemma settle_only (id : nat) (t : Task) (outcome : Outcome) (w : World) :
  pending w = {[id := t]} ->
  settle id outcome w
  = install id (licenses t)
      (resume (licenses t) (point t) outcome (restoreStatus w)) w.
Proof. intros H. unfold settle. now rewrite H, lookup_singleton_eq. Qed.

Lemma pending_install_only (id : nat) (t : Task) (items : list JSValue) (s : Step)
    (w : World) :
  pending w = {[id := t]} ->
  pending (install id items s w)
  = match s with
    | Suspended _ p => {[id := {| licenses := items; point := p |}]}
    | Finished _ => ∅
    end.
Proof.
  intros H. destruct s; cbn; rewrite H.
  - apply insert_singleton_eq.
  - apply delete_singleton_eq.
Qed.

(** The calls already made stay in the log, in front. *)
Lemma step_upstream (e : Event) (w : World) :
  exists more, upstream (step e w) = upstream w ++ more.
Proof.
  assert (forall id items s w0, exists more,
             upstream (install id items s w0) = upstream w0 ++ more) as Hinstall.
  { intros id items s w0. destruct s; cbn; eauto. exists []. now rewrite app_nil_r. }
  destruct e as [| |body|id outcome]; unfold step, handle; cbn [fst].
  - exists []. now rewrite app_nil_r.
  - exists []. now rewrite app_nil_r.
  - unfold post_restore. destruct (checkRestore body w) as [[items wipeFirst]|m]; cbn [fst].
    + match goal with
      | |- context [install ?i ?it ?s ?w0] =>
          destruct (Hinstall i it s w0) as [more Hm]; exists more; exact Hm
      end.
    + exists []. now rewrite app_nil_r.
  - unfold settle. destruct (pending w !! id); [apply Hinstall|].
    exists []. now rewrite app_nil_r.
Qed.

Lemma run_upstream (events : list Event) (w : World) :
  exists more, upstream (run events w) = upstream w ++ more.
Proof.
  revert w. induction events as [|e events IH]; intros w.
  - exists []. now rewrite app_nil_r.
  - cbn [run fold_left]. destruct (IH (step e w)) as [more Hm].
    destruct (step_upstream e w) as [more' Hm'].
    exists (more' ++ more). unfold run in Hm. rewrite Hm, Hm'. now rewrite app_assoc.
Qed.

(** With one invocation in its item loop, the records well formed and no
    request in between, enough settlings bring the job to its end. *)
Lemma drive_to_completion (n : nat) :
  forall (outcomes : list Outcome) (w : World) (id : nat) (t : Task),
    pending w = {[id := t]} ->
    forallb recordShaped (licenses t) = true ->
    progressing (licenses t) (point t) (restoreStatus w) ->
    budget (licenses t) (point t) <= n ->
    n <= length outcomes ->
    let w' := run (List.map (Settle id) outcomes) w in
    pending w' = ∅ /\ completed (licenses t) (restoreStatus w').
Proof.
  induction n as [|n IH]; intros outcomes w id t Hp Hshape Hprog Hb Hlen w'; subst w'.
  - destruct Hprog as (_ & _ & _ & H). destruct (point t); cbn in Hb; try lia; contradiction.
  - destruct outcomes as [|o outcomes]; [cbn in Hlen; lia|].
    cbn [List.map]. rewrite run_cons, step_settle.
    rewrite (settle_only id t o w Hp).
    pose proof (resume_progress (licenses t) (point t) o (restoreStatus w) Hshape Hprog) as R.
    pose proof (pending_install_only id t (licenses t)
                  (resume (licenses t) (point t) o (restoreStatus w)) w Hp) as P.
    pose proof (restoreStatus_install id (licenses t)
                  (resume (licenses t) (point t) o (restoreStatus w)) w) as S.
    destruct (resume (licenses t) (point t) o (restoreStatus w)) as [st' p'|st'];
      cbn [status_of] in S.
    + destruct R as [R1 R2].
      apply (IH outcomes _ id {| licenses := licenses t; point := p' |}); cbn [licenses point].
      * exact P.
      * exact Hshape.
      * rewrite S. exact R1.
      * lia.
      * cbn in Hlen. lia.
    + rewrite run_settle_idle by exact P.
      split; [exact P|]. rewrite S. exact R.
Qed.

(** C4, amended: with the wipe requested, whatever the licensing service
    replies to the two wipe calls (a success or a failure response), the
    restore is not aborted: on a server with a seller key and nothing
    running, with well-formed records and no other request in between, the
    job makes the call that deletes all keys, then the one that deletes all
    users, and ends with every record processed, [currentKey = 'Complete']
    and no error, however the create calls are answered. *)
Theorem wipe_replies_do_not_abort
    (items : list JSValue) (wipeKeys wipeUsers : JSValue)
    (outcomes : list Outcome) (w : World) :
  keyLoaded (SELLER_KEY w) = true ->
  running (restoreStatus w) = false ->
  pending w = ∅ ->
  forallb recordShaped items = true ->
  8 * length items <= length outcomes ->
  let id := nextId w in
  let w' :=
    run (PostRestore (restoreBody items true)
         :: Settle id (Resolved wipeKeys) :: Settle id timer
         :: Settle id (Resolved wipeUsers) :: Settle id timer
         :: List.map (Settle id) outcomes) w in
  pending w' = ∅
  /\ running (restoreStatus w') = false
  /\ error (restoreStatus w') = None
  /\ total (restoreStatus w') = length items
  /\ processed (restoreStatus w') = length items
  /\ currentKey (restoreStatus w') = VStr (lit "Complete")
  /\ exists adds, upstream w' = upstream w ++ DelAllKeys :: DelAllUsers :: adds.
Proof.
  intros Hkey Hrun Hp Hshape Hlen id w'.
  set (wiping := set_currentKey (VStr (lit "Wiping database...")) (resetStatus (length items))).
  set (w4 := run [PostRestore (restoreBody items true); Settle id (Resolved wipeKeys);
                  Settle id timer; Settle id (Resolved wipeUsers)] w).
  assert (w4 = {| SELLER_KEY := SELLER_KEY w; restoreStatus := wiping;
                  pending := {[id := {| licenses := items; point := AwaitSleepWipeUsers |}]};
                  nextId := S (nextId w);
                  upstream := (upstream w ++ [DelAllKeys]) ++ [DelAllUsers] |}) as E4.
  { unfold w4, run. cbn [fold_left]. unfold step, handle. cbn [fst].
    unfold post_restore, checkRestore. rewrite Hkey, Hrun.
    cbn [negb restoreBody getProp lookupProp mbind completion_bind].
    replace (JsString.eqb (lit "licenses") (lit "licenses")) with true
      by (vm_compute; reflexivity).
    replace (JsString.eqb (lit "licenses") (lit "wipeFirst")) with false
      by (vm_compute; reflexivity).
    replace (JsString.eqb (lit "wipeFirst") (lit "wipeFirst")) with true
      by (vm_compute; reflexivity).
    cbn [truthy isArray negb orb arrayItems fst install issued option_list
         pending nextId upstream restoreStatus SELLER_KEY].
    rewrite Hp, insert_empty.
    unfold settle. cbn [pending]. rewrite lookup_singleton_eq.
    cbn [licenses point resume install issued option_list pending nextId upstream
         restoreStatus SELLER_KEY].
    rewrite insert_singleton_eq, lookup_singleton_eq.
    cbn [licenses point resume install issued option_list pending nextId upstream
         restoreStatus SELLER_KEY].
    rewrite insert_singleton_eq, lookup_singleton_eq.
    cbn [licenses point resume install issued option_list pending nextId upstream
         restoreStatus SELLER_KEY].
    rewrite insert_singleton_eq, !app_nil_r. reflexivity. }
  assert (w' = run (List.map (Settle id) (timer :: outcomes)) w4) as E'.
  { unfold w', w4, run. reflexivity. }
  destruct (run_upstream (List.map (Settle id) (timer :: outcomes)) w4) as [adds Hadds].
  rewrite <- E' in Hadds.
  assert (exists adds0, upstream w' = upstream w ++ DelAllKeys :: DelAllUsers :: adds0) as Hup.
  { exists adds. rewrite Hadds, E4. cbn [upstream]. now rewrite <- !app_assoc. }
  assert (pending w' = ∅ /\ completed items (restoreStatus w')) as [Hdone Hc].
  { rewrite E'. cbn [List.map]. rewrite run_cons, step_settle.
    assert (pending w4 = {[id := {| licenses := items; point := AwaitSleepWipeUsers |}]})
      as P4 by (rewrite E4; reflexivity).
    rewrite (settle_only id _ timer w4 P4). cbn [licenses point resume].
    assert (restoreStatus w4 = wiping) as S4 by (rewrite E4; reflexivity).
    rewrite S4.
    pose proof (for_head_progress items 0 wiping Hshape eq_refl eq_refl eq_refl eq_refl
                  (Nat.le_0_l _)) as F.
    pose proof (pending_install_only id _ items (for_head items 0 wiping) w4 P4) as P.
    pose proof (restoreStatus_install id items (for_head items 0 wiping) w4) as S.
    destruct (for_head items 0 wiping) as [st' p'|st']; cbn [status_of] in S.
    - destruct F as [F1 F2].
      apply (drive_to_completion (8 * length items) outcomes _ id
               {| licenses := items; point := p' |}); cbn [licenses point].
      + exact P.
      + exact Hshape.
      + rewrite S. exact F1.
      + lia.
      + exact Hlen.
    - rewrite run_settle_idle by exact P.
      split; [exact P|]. rewrite S. exact F. }
  destruct Hc as (C1 & C2 & C3 & C4 & C5).
  repeat split; assumption.
Qed.

(** A wipe call that throws (no connection, or a reply that is not JSON) is
    not inside any [try] of its own: the route's [catch] ends the job. *)
Lemma wipe_error_ends_job (items : list JSValue) (m : jsstring) (st : RestoreStatus) :
  resume items AwaitWipeKeys (Rejected m) st = Finished (catch_handler m st)
  /\ resume items AwaitWipeUsers (Rejected m) st = Finished (catch_handler m st).
Proof. split; reflexivity. Qed.

End DriveFacts.

(** One record, both wipe calls answered by a failure response. *)
Lemma wipe_replies_do_not_abort_witness :
  let refused := VObj [(lit "success", VBool false);
                       (lit "message", VStr (lit "Nothing to delete"))] in
  let w' :=
    @run exampleHost
      (PostRestore (restoreBody [keyed "Soryn-A"] true)
       :: Settle 0 (Resolved refused) :: Settle 0 timer
       :: Settle 0 (Resolved refused) :: Settle 0 timer
       :: List.map (Settle 0) (replyOk :: repeat timer 7)) connected in
  pending w' = ∅
  /\ running (restoreStatus w') = false
  /\ error (restoreStatus w') = None
  /\ total (restoreStatus w') = 1
  /\ processed (restoreStatus w') = 1
  /\ currentKey (restoreStatus w') = VStr (lit "Complete")
  /\ exists adds, upstream w' = [] ++ DelAllKeys :: DelAllUsers :: adds.
Proof.
  intros refused.
  apply (@wipe_replies_do_not_abort exampleHost [keyed "Soryn-A"] refused refused
           (replyOk :: repeat timer 7) connected);
    reflexivity.
Defined.

(** C4 as stated fails: the wipe is requested for a job of one record and
    the call that deletes all keys fails at the connection; or that call is
    answered and the one that deletes all users gets a body that is not
    JSON. Either way the job is over: [running] is false, [error] holds the
    message, no record is processed and no create call is ever made. *)
Lemma failed_wipe_aborts_restore :
  let start := PostRestore (restoreBody [keyed "Soryn-A"] true) in
  let w1 :=
    @run exampleHost
      [start; Settle 0 (Rejected (lit "getaddrinfo ENOTFOUND keyauth.win"));
       Settle 0 timer; Settle 0 replyOk] connected in
  let w2 :=
    @run exampleHost
      [start; Settle 0 replyOk; Settle 0 timer;
       Settle 0 (Rejected (lit "Invalid response: <html>"));
       Settle 0 timer; Settle 0 replyOk] connected in
  pending w1 = ∅
  /\ restoreStatus w1
     = Status false 1 0 0 0 0 (VStr (lit "Wiping database..."))
              (Some (lit "getaddrinfo ENOTFOUND keyauth.win"))
  /\ upstream w1 = [DelAllKeys]
  /\ pending w2 = ∅
  /\ restoreStatus w2
     = Status false 1 0 0 0 0 (VStr (lit "Wiping database..."))
              (Some (lit "Invalid response: <html>"))
  /\ upstream w2 = [DelAllKeys; DelAllUsers].
Proof. vm_compute. repeat split. Qed.

(** * Further properties *)

(** ** The text parser on arbitrary text *)

Section ParserTotalFacts.

Context {host : Host}.
Import JsString JsStringFacts.

Lemma parseDurationFromKeyName_range (keyName : jsstring) :
  exists d : Z,
    parseDurationFromKeyName (VStr keyName) = Normal d
    /\ existsb (Z.eqb d) [999999999; 2592000; 604800; 86400; 31536000]%Z = true.
Proof.
  unfold parseDurationFromKeyName. cbn [call_toLowerCase mbind completion_bind].
  repeat match goal with
         | |- context [if ?b then _ else _] => destruct b
         end; eexists; (split; [reflexivity|reflexivity]).
Qed.

Lemma licenseObject_shapes (key status level : jsstring) (d : Z) :
  startsWith (toLowerCase key) (lit "soryn") = true ->
  allDigits level = true ->
  existsb (Z.eqb d) [999999999; 2592000; 604800; 86400; 31536000]%Z = true ->
  parsedShape (licenseObject key status level d) = true
  /\ recordShaped (licenseObject key status level d) = true.
Proof.
  intros Hk Hl Hd. split; [|reflexivity].
  unfold parsedShape, licenseObject. rewrite Hk, Hl, Hd. reflexivity.
Qed.

Lemma parseLine_shapes (line : jsstring) :
  exists pushed : list JSValue,
    parseLine line = Normal pushed
    /\ length pushed <= 1
    /\ forallb parsedShape pushed = true
    /\ forallb recordShaped pushed = true.
Proof.
  unfold parseLine.
  destruct (skippedLine (trim line)); [exists []; cbn; auto|].
  destruct (splitColumns (trim line)) as [|part0 parts] eqn:E; [exists []; cbn; auto|].
  destruct (startsWith (toLowerCase (trim part0)) (lit "soryn")) eqn:Hk;
    [|exists []; cbn; auto].
  destruct (parseDurationFromKeyName_range (trim part0)) as (d & Hd & Hrange).
  rewrite Hd. cbn [mbind completion_bind].
  eexists. split; [reflexivity|]. split; [cbn; lia|].
  match goal with
  | |- context [licenseObject ?k ?s ?l ?d] =>
      destruct (licenseObject_shapes k s l d) as [H1 H2]; auto
  end.
  - destruct ((part0 :: parts) !! 2) as [part2|]; [|reflexivity].
    destruct (allDigits (trim part2)) eqn:Hdig; [exact Hdig|reflexivity].
  - cbn [forallb]. now rewrite H1, H2.
Qed.

Lemma parseLines_shapes (lines : list jsstring) (found : list JSValue) :
  forallb parsedShape found = true ->
  forallb recordShaped found = true ->
  exists records : list JSValue,
    parseLines lines found = Normal records
    /\ length records <= length found + length lines
    /\ forallb parsedShape records = true
    /\ forallb recordShaped records = true.
Proof.
  revert found. induction lines as [|line lines IH]; intros found H1 H2.
  - exists found. cbn. repeat split; auto; lia.
  - destruct (parseLine_shapes line) as (pushed & Hp & Hlen & P1 & P2).
    cbn [parseLines]. rewrite Hp. cbn [mbind completion_bind].
    destruct (IH (found ++ pushed)) as (records & Hr & Hl & R1 & R2).
    + rewrite forallb_app. now rewrite H1, P1.
    + rewrite forallb_app. now rewrite H2, P2.
    + exists records. repeat split; auto.
      rewrite length_app in Hl. cbn [length]. lia.
Qed.

Lemma parseBackupText_shaped (content : jsstring) :
  exists records : list JSValue,
    parseBackupText (VStr content) = Normal records
    /\ forallb parsedShape records = true
    /\ forallb recordShaped records = true.
Proof.
  unfold parseBackupText.
  destruct (parseLines_shapes (splitLines content) []) as (records & H & _ & H1 & H2);
    auto.
  exists records. repeat split; auto.
Qed.

(** X1: on every string [parseBackupText] returns (it throws nothing), with
    at most one record per line; every record it returns has exactly the
    fields [key], [status], [level], [duration], with a key whose lower
    case starts with "soryn", a level made of digits and one of the five
    durations, and is a record the restore loop reads without throwing. *)
Theorem parseBackupText_string (content : jsstring) :
  exists records : list JSValue,
    parseBackupText (VStr content) = Normal records
    /\ length records <= length (splitLines content)
    /\ forallb parsedShape records = true
    /\ forallb recordShaped records = true.
Proof.
  unfold parseBackupText.
  destruct (parseLines_shapes (splitLines content) []) as (records & H & Hl & H1 & H2);
    auto.
  exists records. repeat split; auto.
Qed.

Lemma splitLines_from_newline (cur a b : jsstring) :
  splitLines_from cur (a ++ 10%N :: b) = splitLines_from cur a ++ splitLines_from [] b.
Proof.
  revert cur. induction a as [|c a IH]; intros cur; cbn.
  - reflexivity.
  - destruct (c =? 10)%N; cbn; now rewrite IH.
Qed.

Lemma parseLines_app (l1 l2 : list jsstring) (found : list JSValue) :
  parseLines (l1 ++ l2) found = (mid ← parseLines l1 found; parseLines l2 mid).
Proof.
  revert found. induction l1 as [|line l1 IH]; intros found; [reflexivity|].
  cbn [app parseLines]. destruct (parseLine line) as [pushed|m]; [|reflexivity].
  cbn [mbind completion_bind]. apply IH.
Qed.

Lemma parseLines_found (lines : list jsstring) (found records : list JSValue) :
  parseLines lines [] = Normal records ->
  parseLines lines found = Normal (found ++ records).
Proof.
  revert found records. induction lines as [|line lines IH]; intros found records.
  - intros [= <-]. cbn. now rewrite app_nil_r.
  - cbn [parseLines]. destruct (parseLine line) as [pushed|m]; [|discriminate].
    cbn [mbind completion_bind]. cbn [app]. intros H.
    destruct (parseLines_shapes lines []) as (tail & Ht & _); auto.
    rewrite (IH pushed tail Ht) in H. injection H as <-.
    rewrite (IH (found ++ pushed) tail Ht). now rewrite app_assoc.
Qed.

(** X2: parsing two dumps joined by a line break gives the records of the
    first followed by the records of the second. *)
Theorem parseBackupText_concat (a b : jsstring) (ra rb : list JSValue) :
  parseBackupText (VStr a) = Normal ra ->
  parseBackupText (VStr b) = Normal rb ->
  parseBackupText (VStr (a ++ 10%N :: b)) = Normal (ra ++ rb).
Proof.
  unfold parseBackupText, splitLines. intros Ha Hb.
  rewrite splitLines_from_newline, parseLines_app, Ha. cbn [mbind completion_bind].
  now apply parseLines_found.
Qed.


End ParserTotalFacts.

Lemma parseBackupText_concat_witness :
  @parseBackupText exampleHost
    (VStr (lit "Soryn-AAAAA-BBBBB  Used  2" ++ 10%N :: lit "soryn-1day-ccc"))
  = Normal ([dataRecord] ++ [licenseObject (lit "soryn-1day-ccc") (lit "Not Used") (lit "1") 86400]).
Proof.
  apply (@parseBackupText_concat exampleHost); vm_compute; reflexivity.
Defined.


(** ** Starting, stopping and the number of create calls *)

Section JobFacts.

Context {host : Host}.

Lemma checkRestore_array (body wipeFirst : JSValue) (items : list JSValue) (w : World) :
  keyLoaded (SELLER_KEY w) = true ->
  running (restoreStatus w) = false ->
  getProp body (lit "licenses") = Normal (VArr items) ->
  getProp body (lit "wipeFirst") = Normal wipeFirst ->
  checkRestore body w = Normal (items, wipeFirst).
Proof.
  intros Hkey Hrun Hl Hw. unfold checkRestore. now rewrite Hkey, Hrun, Hl, Hw.
Qed.

Lemma for_head_first (items : list JSValue) (first : JSValue) (st : RestoreStatus) :
  items !! 0 = Some first -> recordShaped first = true -> running st = true ->
  exists key duration level,
    for_head items 0 st
    = Suspended (set_processed 1 (set_currentKey key st))
                (AwaitAdd 0 3 (AddKey key duration level)).
Proof.
  intros Hf Hs Hrun. unfold for_head.
  destruct items as [|x items]; [discriminate|]. injection Hf as ->.
  cbn [length Nat.ltb Nat.leb]. rewrite Hrun. cbn [negb].
  change (default VUndefined ((first :: items) !! 0)) with first.
  destruct (readLicense_shaped first Hs) as (key & duration & level & -> & ->).
  exists key, duration, level. reflexivity.
Qed.

(** X4: a request with a list for [licenses], on a server with a seller key
    and nothing running, is acknowledged with [total] equal to the length
    of the list, and the snapshot is reset to that total with the three
    outcome counters at zero. With the wipe requested the job is running,
    nothing is processed and the call that deletes all keys is out. Without
    it, an empty list leaves the job already over ([running] false,
    'Complete'), and a list whose first record is well formed leaves the
    job running with that record taken up and its create call out. *)
Theorem restore_acknowledged
    (body wipeFirst : JSValue) (items : list JSValue) (w : World) :
  keyLoaded (SELLER_KEY w) = true ->
  running (restoreStatus w) = false ->
  getProp body (lit "licenses") = Normal (VArr items) ->
  getProp body (lit "wipeFirst") = Normal wipeFirst ->
  let w' := fst (post_restore body w) in
  let st := restoreStatus w' in
  snd (post_restore body w) = RStarted (length items)
  /\ total st = length items
  /\ success st = 0 /\ skipped st = 0 /\ failed st = 0
  /\ (truthy wipeFirst = true ->
      running st = true /\ processed st = 0 /\ error st = None
      /\ currentKey st = VStr (lit "Wiping database...")
      /\ upstream w' = upstream w ++ [DelAllKeys])
  /\ (truthy wipeFirst = false -> items = [] ->
      running st = false /\ processed st = 0 /\ error st = None
      /\ currentKey st = VStr (lit "Complete")
      /\ upstream w' = upstream w)
  /\ (truthy wipeFirst = false ->
      forall first, items !! 0 = Some first -> recordShaped first = true ->
      running st = true /\ processed st = 1 /\ error st = None
      /\ exists key duration level,
           currentKey st = key
           /\ upstream w' = upstream w ++ [AddKey key duration level]).
Proof.
  intros Hkey Hrun Hl Hw w' st. subst st w'.
  unfold post_restore. rewrite (checkRestore_array body wipeFirst items w Hkey Hrun Hl Hw).
  cbn [fst snd]. rewrite restoreStatus_install.
  split; [reflexivity|].
  assert (forall s, s = (if truthy wipeFirst
                         then Suspended (set_currentKey (VStr (lit "Wiping database..."))
                                           (resetStatus (length items))) AwaitWipeKeys
                         else for_head items 0 (resetStatus (length items))) ->
          total (status_of s) = length items /\ success (status_of s) = 0
          /\ skipped (status_of s) = 0 /\ failed (status_of s) = 0) as Hcounts.
  { intros s ->. destruct (truthy wipeFirst); [cbn; auto|].
    pose proof (for_head_ok items 0 (resetStatus (length items)) eq_refl eq_refl
                  (Nat.le_0_l _) (Nat.le_0_l _)) as Hok.
    pose proof (for_head_monotone items 0 (resetStatus (length items))) as Hmono.
    unfold for_head in *.
    destruct (0 <? length items); [|cbn; auto].
    cbn [running resetStatus negb] in *.
    destruct (readLicense _) as [[[key duration] level]|m]; [|cbn; auto].
    destruct (makeParams key duration level) as [params|m]; [|cbn; auto].
    rewrite while_head_status. cbn. auto. }
  destruct (Hcounts _ eq_refl) as (H1 & H2 & H3 & H4).
  repeat (split; [assumption|]).
  split; [|split].
  - intros ->. cbn. repeat split; reflexivity.
  - intros -> ->. cbn. repeat split; reflexivity.
  - intros -> first Hf Hs.
    destruct (for_head_first items first (resetStatus (length items)) Hf Hs eq_refl)
      as (key & duration & level & ->).
    cbn. repeat split; try reflexivity. exists key, duration, level. split; reflexivity.
Qed.

End JobFacts.

Lemma restore_acknowledged_witness :
  let body := restoreBody [keyed "Soryn-A"; keyed "Soryn-B"] false in
  snd (@post_restore exampleHost body connected) = RStarted 2
  /\ total (restoreStatus (fst (@post_restore exampleHost body connected))) = 2.
Proof.
  intros body.
  destruct (@restore_acknowledged exampleHost body (VBool false)
              [keyed "Soryn-A"; keyed "Soryn-B"] connected
              eq_refl eq_refl eq_refl eq_refl) as (H1 & H2 & _).
  exact (conj H1 H2).
Defined.

Section StopFacts.

Context {host : Host}.

Lemma for_head_stopped (items : list JSValue) (j : nat) (st : RestoreStatus) :
  running st = false ->
  for_head items j st
  = Finished (Status false (total st) (processed st) (success st) (skipped st)
                     (failed st) (VStr (lit "Complete"))
                     (if j <? length items then Some (lit "Stopped by user")
                      else error st)).
Proof.
  intros Hrun. unfold for_head. rewrite Hrun. now destruct (j <? length items).
Qed.

Lemma stopping_finish (items : list JSValue) (i : nat) (st0 st : RestoreStatus)
    (extra : nat) :
  stopping st0 extra st -> extra <= 1 ->
  match for_head items (i + 1) st with
  | Finished st' => stopped_at items i st0 st'
  | Suspended _ _ => False
  end.
Proof.
  intros (Hrun & Ht & Hp & He & Hle & Htally) Hx.
  rewrite (for_head_stopped items (i + 1) st Hrun).
  unfold stopped_at, counts_le, tally in *. cbn. rewrite He.
  repeat split; auto; lia.
Qed.

Lemma resume_stopping (items : list JSValue) (p : Await) (i : nat) (o : Outcome)
    (st0 st : RestoreStatus) (a : nat) :
  atRecord p = Some i ->
  stopping st0 (a - slack p) st -> slack p <= a -> a <= 1 ->
  match resume items p o st with
  | Finished st' => stopped_at items i st0 st'
  | Suspended st' p' =>
      atRecord p' = Some i /\ cost p' < cost p
      /\ stopping st0 (a - slack p') st' /\ slack p' <= a
  end.
Proof.
  intros Hat Hst Hs Ha.
  destruct p; cbn [atRecord] in Hat; try discriminate; cbn [resume slack cost] in *.
  - destruct ((1 <=? retries)%Z && (retries <=? 3)%Z) eqn:Hr; [|discriminate].
    injection Hat as ->. apply andb_prop in Hr as [Hr1 Hr2].
    apply Z.leb_le in Hr1, Hr2.
    assert (atRecord (AwaitSleepError i retries params) = Some i) as Hat'.
    { cbn. now rewrite (proj2 (Z.leb_le _ _) Hr1), (proj2 (Z.leb_le _ _) Hr2). }
    assert (atRecord (AwaitSleepRate i retries params) = Some i) as Hat''.
    { cbn. now rewrite (proj2 (Z.leb_le _ _) Hr1), (proj2 (Z.leb_le _ _) Hr2). }
    assert (forall q, atRecord q = Some i -> slack q = 1 -> cost q < 2 * Z.to_nat retries + 2 ->
                      atRecord q = Some i /\ cost q < 2 * Z.to_nat retries + 2
                      /\ stopping st0 (a - slack q) st /\ slack q <= a) as Hsame.
    { intros q Hq Hsq Hcq. rewrite Hsq. auto. }
    destruct o as [result|m]; [|apply Hsame; cbn; auto; lia].
    destruct (add_verdict result st) as [[st'|]|m] eqn:E;
      [|apply Hsame; cbn; auto; lia|apply Hsame; cbn; auto; lia].
    apply add_verdict_counted in E. unfold while_head. rewrite andb_false_r.
    cbn [atRecord slack cost]. split; [reflexivity|]. split; [lia|]. split; [|lia].
    destruct Hst as (Hrun & Ht & Hp & He & Hle & Htally).
    unfold stopping, counts_le, tally in *.
    destruct E as [ -> | [ -> | -> ] ]; cbn; repeat split; auto; lia.
  - destruct ((1 <=? retries)%Z && (retries <=? 3)%Z) eqn:Hr; [|discriminate].
    injection Hat as ->. apply andb_prop in Hr as [Hr1 Hr2].
    apply Z.leb_le in Hr1, Hr2.
    unfold while_head. rewrite andb_true_r.
    destruct (0 <? retries - 1)%Z eqn:E.
    + apply Z.ltb_lt in E. cbn [atRecord slack cost].
      rewrite (proj2 (Z.leb_le 1 (retries - 1))), (proj2 (Z.leb_le (retries - 1) 3)) by lia.
      split; [reflexivity|]. split; [lia|]. split; [exact Hst|exact Hs].
    + cbn [atRecord slack cost]. split; [reflexivity|]. split; [lia|]. split; [|lia].
      destruct Hst as (Hrun & Ht & Hp & He & Hle & Htally).
      unfold stopping, counts_le in *. repeat split; auto; lia.
  - destruct ((1 <=? retries)%Z && (retries <=? 3)%Z) eqn:Hr; [|discriminate].
    injection Hat as ->. apply andb_prop in Hr as [Hr1 Hr2].
    apply Z.leb_le in Hr1, Hr2.
    unfold while_head. rewrite andb_true_r.
    destruct (retries - 1 =? 0)%Z eqn:E0.
    + apply Z.eqb_eq in E0. rewrite E0. cbn [Z.ltb Z.compare].
      cbn [atRecord slack cost]. split; [reflexivity|]. split; [lia|]. split; [|lia].
      destruct Hst as (Hrun & Ht & Hp & He & Hle & Htally).
      unfold stopping, counts_le, tally in *. cbn. repeat split; auto; lia.
    + apply Z.eqb_neq in E0.
      destruct (0 <? retries - 1)%Z eqn:E; [|apply Z.ltb_ge in E; lia].
      cbn [atRecord slack cost].
      rewrite (proj2 (Z.leb_le 1 (retries - 1))), (proj2 (Z.leb_le (retries - 1) 3)) by lia.
      split; [reflexivity|]. split; [lia|]. split; [exact Hst|exact Hs].
  - injection Hat as ->.
    destruct ((i + 1) mod 20 =? 0).
    + cbn [atRecord slack cost]. split; [reflexivity|]. split; [lia|].
      split; [exact Hst|lia].
    + pose proof (stopping_finish items i st0 st (a - 0) Hst ltac:(lia)) as F.
      destruct (for_head items (i + 1) st); [contradiction|exact F].
  - injection Hat as ->.
    pose proof (stopping_finish items i st0 st (a - 0) Hst ltac:(lia)) as F.
      destruct (for_head items (i + 1) st); [contradiction|exact F].
Qed.

End StopFacts.

Section StopRunFacts.

Context {host : Host}.

Lemma atRecord_cost (p : Await) (i : nat) :
  atRecord p = Some i -> 1 <= cost p <= 8.
Proof.
  destruct p; cbn; try discriminate; try lia;
    destruct ((1 <=? retries)%Z && (retries <=? 3)%Z) eqn:E; try discriminate;
    apply andb_prop in E as [E1 E2]; apply Z.leb_le in E1, E2; lia.
Qed.

Lemma stop_drains (n : nat) :
  forall (outcomes : list Outcome) (w : World) (id : nat) (t : Task) (i : nat)
         (st0 : RestoreStatus) (a : nat),
    pending w = {[id := t]} ->
    atRecord (point t) = Some i ->
    stopping st0 (a - slack (point t)) (restoreStatus w) ->
    slack (point t) <= a -> a <= 1 ->
    cost (point t) <= n -> n <= length outcomes ->
    pending (run (List.map (Settle id) outcomes) w) = ∅
    /\ stopped_at (licenses t) i st0 (restoreStatus (run (List.map (Settle id) outcomes) w)).
Proof.
  induction n as [|n IH]; intros outcomes w id t i st0 a Hp Hat Hst Hs Ha Hc Hlen.
  - pose proof (atRecord_cost _ _ Hat). lia.
  - destruct outcomes as [|o outcomes]; [cbn in Hlen; lia|].
    cbn [List.map]. rewrite run_cons, step_settle, (settle_only id t o w Hp).
    pose proof (resume_stopping (licenses t) (point t) i o st0 (restoreStatus w) a
                  Hat Hst Hs Ha) as R.
    pose proof (pending_install_only id t (licenses t)
                  (resume (licenses t) (point t) o (restoreStatus w)) w Hp) as P.
    pose proof (restoreStatus_install id (licenses t)
                  (resume (licenses t) (point t) o (restoreStatus w)) w) as S.
    destruct (resume (licenses t) (point t) o (restoreStatus w)) as [st' p'|st'];
      cbn [status_of] in S.
    + destruct R as (R1 & R2 & R3 & R4). rewrite <- S in R3. cbn in Hlen.
      exact (IH outcomes _ id {| licenses := licenses t; point := p' |} i st0 a
                P R1 R3 R4 Ha ltac:(cbn [point]; lia) ltac:(lia)).
    + rewrite run_settle_idle by exact P. split; [exact P|]. now rewrite S.
Qed.

(** X5: a stop request that arrives while the only invocation of the
    restore route is inside its loop, at record [i], ends the job within
    eight settlings (the three attempts, their back-off pauses and the two
    pauses after the record), whatever the replies: nothing is left
    suspended, [running] is false, [currentKey] is 'Complete', [total] and
    [processed] are as they were, no outcome counter went down and at most
    one outcome was added. [error] is 'Stopped by user' when records were
    left, and unchanged when [i] was the last record. *)
Theorem stop_ends_job
    (outcomes : list Outcome) (w : World) (id : nat) (t : Task) (i : nat) :
  pending w = {[id := t]} ->
  atRecord (point t) = Some i ->
  8 <= length outcomes ->
  let st0 := restoreStatus w in
  let st := restoreStatus (run (PostStop :: List.map (Settle id) outcomes) w) in
  pending (run (PostStop :: List.map (Settle id) outcomes) w) = ∅
  /\ running st = false
  /\ currentKey st = VStr (lit "Complete")
  /\ total st = total st0 /\ processed st = processed st0
  /\ counts_le st0 st
  /\ success st + skipped st + failed st <= success st0 + skipped st0 + failed st0 + 1
  /\ error st = (if i + 1 <? length (licenses t) then Some (lit "Stopped by user")
                 else error st0).
Proof.
  intros Hp Hat Hlen st0 st. subst st. rewrite run_cons.
  set (w1 := step PostStop w).
  assert (pending w1 = {[id := t]}) as Hp1 by exact Hp.
  destruct (stop_drains 8 outcomes w1 id t i st0 (slack (point t)) Hp1 Hat) as [Hd Hs].
  - rewrite Nat.sub_diag. unfold stopping, counts_le, tally, w1, st0. cbn.
    repeat split; auto; lia.
  - apply Nat.le_refl.
  - destruct (point t); cbn; lia.
  - apply (atRecord_cost _ _ Hat).
  - exact Hlen.
  - destruct Hs as (H1 & H2 & H3 & H4 & H5 & H6 & H7). unfold tally in H7.
    repeat split; auto; apply H6.
Qed.

End StopRunFacts.

(** A job of three records stopped while the create call of the first is
    out. *)
Lemma stop_ends_job_witness :
  let items := [keyed "Soryn-A"; keyed "Soryn-B"; keyed "Soryn-C"] in
  let w := @step exampleHost (PostRestore (restoreBody items false)) connected in
  let st := restoreStatus
              (@run exampleHost (PostStop :: List.map (Settle 0) (repeat replyOk 8)) w) in
  running st = false /\ error st = Some (lit "Stopped by user").
Proof.
  intros items w st.
  destruct (@stop_ends_job exampleHost (repeat replyOk 8) w 0
              {| licenses := items;
                 point := AwaitAdd 0 3 (AddKey (VStr (lit "Soryn-A")) (VNum 999999999)
                                               (VStr (lit "1"))) |} 0)
    as (_ & H1 & _ & _ & _ & _ & _ & H2).
  - vm_compute. reflexivity.
  - reflexivity.
  - cbn. lia.
  - split; [exact H1|exact H2].
Defined.

Section CallCountFacts.

Context {host : Host}.

Lemma creates_app (a b : list UpstreamCall) : creates (a ++ b) = creates a + creates b.
Proof. unfold creates. now rewrite List.filter_app, length_app. Qed.

Lemma creates_one (calls : list UpstreamCall) (c : UpstreamCall) :
  creates (calls ++ [c]) <= creates calls + 1.
Proof. rewrite creates_app. destruct c; cbn; lia. Qed.

Lemma while_head_calls (b i : nat) (retries : Z) (added : bool)
    (params : UpstreamCall) (st : RestoreStatus) (calls : list UpstreamCall) :
  processed st = i + 1 -> (0 <= retries <= 3)%Z ->
  creates calls + Z.to_nat retries <= b + 3 * i + 3 ->
  step_calls b (while_head i retries added params st) calls.
Proof.
  intros Hp Hr Hc. unfold while_head.
  destruct (_ && _) eqn:E; cbn.
  - apply andb_prop in E as [E _]. apply Z.ltb_lt in E.
    pose proof (creates_one calls params). repeat split; auto; lia.
  - rewrite app_nil_r. split; [exact Hp|]. lia.
Qed.

Lemma for_head_calls (b j : nat) (items : list JSValue) (st : RestoreStatus)
    (calls : list UpstreamCall) :
  processed st = j -> creates calls <= b + 3 * j ->
  step_calls b (for_head items j st) calls.
Proof.
  intros Hp Hc. unfold for_head.
  destruct (j <? length items); [|cbn; lia].
  destruct (running st); cbn [negb]; [|cbn; lia].
  destruct (readLicense _) as [[[key duration] level]|m]; [|cbn; lia].
  destruct (makeParams key duration level) as [params|m] eqn:E; [|cbn; lia].
  apply while_head_calls; cbn; lia.
Qed.

Lemma resume_calls (b : nat) (items : list JSValue) (p : Await) (o : Outcome)
    (st : RestoreStatus) (calls : list UpstreamCall) :
  waiting_calls b p st calls ->
  step_calls b (resume items p o st) calls.
Proof.
  intros H. destruct p; cbn [resume waiting_calls] in *.
  - destruct o; cbn; rewrite ?app_nil_r; [exact H|lia].
  - cbn. rewrite creates_app. cbn. destruct H. split; [assumption|lia].
  - destruct o; cbn; rewrite ?app_nil_r; [exact H|lia].
  - destruct H as [Hp Hc]. apply for_head_calls; [exact Hp|lia].
  - assert (forall q, q = AwaitSleepRate i retries params
                      \/ q = AwaitSleepError i retries params ->
                      step_calls b (Suspended st q) calls) as Hsame.
    { intros q [-> | ->]; cbn; now rewrite app_nil_r. }
    destruct o as [result|m]; [|apply Hsame; auto].
    destruct (add_verdict result st) as [[st'|]|m] eqn:E;
      [|apply Hsame; auto|apply Hsame; auto].
    apply add_verdict_counted in E. destruct H as (Hp & Hr & Hc).
    unfold while_head. rewrite andb_false_r. cbn. rewrite app_nil_r.
    split; [destruct E as [ -> | [ -> | -> ] ]; exact Hp|lia].
  - destruct H as (Hp & Hr & Hc). apply while_head_calls; auto; lia.
  - destruct H as (Hp & Hr & Hc).
    destruct (retries - 1 =? 0)%Z; apply while_head_calls; auto; lia.
  - destruct H as (Hp & Hc).
    destruct ((i + 1) mod 20 =? 0).
    + cbn. rewrite app_nil_r. auto.
    + apply for_head_calls; [exact Hp|lia].
  - destruct H as (Hp & Hc). apply for_head_calls; [exact Hp|lia].
Qed.

Lemma install_calls_ok (b id : nat) (items : list JSValue) (s : Step) (w : World) :
  pending w = ∅ \/ (exists t, pending w = {[id := t]}) ->
  step_calls b s (upstream w) ->
  calls_ok b (install id items s w).
Proof.
  intros Hp Hs. destruct s as [st p|st]; cbn in Hs.
  - right. exists id, {| licenses := items; point := p |}. split; [|exact Hs].
    cbn. destruct Hp as [->|[t ->]]; [apply insert_empty|apply insert_singleton_eq].
  - left. split; [|exact Hs].
    cbn. destruct Hp as [->|[t ->]]; [apply delete_empty|apply delete_singleton_eq].
Qed.

Lemma step_calls_ok (b : nat) (e : Event) (w : World) :
  is_restart e = false -> calls_ok b w -> calls_ok b (step e w).
Proof.
  destruct e as [| |body|id outcome]; intros He Hw; try discriminate.
  - exact Hw.
  - destruct Hw as [[Hp Hc]|(id & t & Hp & Hc)].
    + left. split; [exact Hp|exact Hc].
    + right. exists id, t. split; [exact Hp|]. destruct (point t); exact Hc.
  - rewrite step_settle. unfold settle.
    destruct (pending w !! id) as [t|] eqn:E; [|exact Hw].
    destruct Hw as [[Hp Hc]|(id' & t' & Hp & Hc)].
    + rewrite Hp in E. now rewrite lookup_empty in E.
    + rewrite Hp in E. apply lookup_singleton_Some in E as [<- <-].
      apply install_calls_ok; [right; eauto|]. now apply resume_calls.
Qed.

Lemma run_calls_ok (b : nat) (events : list Event) (w : World) :
  forallb (fun e => negb (is_restart e)) events = true ->
  calls_ok b w -> calls_ok b (run events w).
Proof.
  revert w. induction events as [|e events IH]; intros w He Hw; [exact Hw|].
  cbn in He. apply andb_prop in He as [He1 He2].
  rewrite run_cons. apply IH; [exact He2|].
  apply step_calls_ok; [|exact Hw]. now destruct (is_restart e).
Qed.

(** X6: from the moment a restore request is accepted on a server with no
    suspended invocation, and for as long as no other restore request
    comes, the job has made at most three create calls for each record it
    has taken up: the create calls added to the log number at most
    [3 * processed], whatever the replies, stop requests and polls. *)
Theorem create_calls_bounded (body : JSValue) (events : list Event) (w : World) :
  pending w = ∅ ->
  accepts body w = true ->
  forallb (fun e => negb (is_restart e)) events = true ->
  let w' := run (PostRestore body :: events) w in
  creates (upstream w') <= creates (upstream w) + 3 * processed (restoreStatus w').
Proof.
  intros Hp Hacc He w'. subst w'. rewrite run_cons.
  assert (calls_ok (creates (upstream w)) (step (PostRestore body) w)) as Hstart.
  { unfold step, handle, post_restore, accepts in *. cbn [fst].
    destruct (checkRestore body w) as [[items wipeFirst]|m]; [|discriminate].
    cbn [fst]. apply install_calls_ok; [now left|]. cbn [upstream].
    destruct (truthy wipeFirst).
    - cbn. rewrite creates_app. cbn. split; [reflexivity|lia].
    - apply for_head_calls; cbn; lia. }
  pose proof (run_calls_ok _ events _ He Hstart) as [[_ H]|(id & t & _ & H)].
  - exact H.
  - destruct (point t); cbn in H; lia.
Qed.

End CallCountFacts.

Lemma create_calls_bounded_witness :
  let body := restoreBody [keyed "Soryn-A"; keyed "Soryn-B"] false in
  let events :=
    [ Settle 0 (replyFailure "Rate limit exceeded"); Settle 0 timer;
      Settle 0 (Rejected (lit "socket hang up")); Settle 0 timer; Settle 0 replyOk;
      GetStatus; Settle 0 timer ] in
  let w' := @run exampleHost (PostRestore body :: events) connected in
  creates (upstream w') <= creates (upstream connected) + 3 * processed (restoreStatus w').
Proof.
  intros body events.
  apply (@create_calls_bounded exampleHost body events connected); reflexivity.
Defined.

(** ** From a text dump to a finished restore *)

Section TextRestoreFacts.

Context {host : Host}.

Lemma orderly_settles (id : nat) (outcomes : list Outcome) (w : World) :
  orderly (List.map (Settle id) outcomes) w.
Proof.
  revert w. induction outcomes as [|o os IH]; intros w; [exact I|].
  split; [exact I|]. apply IH.
Qed.

Lemma step_restore_plain (items : list JSValue) (w : World) :
  keyLoaded (SELLER_KEY w) = true ->
  running (restoreStatus w) = false ->
  step (PostRestore (restoreBody items false)) w
  = install (nextId w) items (for_head items 0 (resetStatus (length items)))
      {| SELLER_KEY := SELLER_KEY w; restoreStatus := resetStatus (length items);
         pending := pending w; nextId := S (nextId w); upstream := upstream w |}.
Proof.
  intros Hkey Hrun. unfold step, handle, post_restore.
  now rewrite (checkRestore_array (restoreBody items false) (VBool false) items w
                 Hkey Hrun eq_refl eq_refl).
Qed.

Lemma restore_completes (items : list JSValue) (outcomes : list Outcome) (w : World) :
  keyLoaded (SELLER_KEY w) = true ->
  running (restoreStatus w) = false ->
  pending w = ∅ ->
  forallb recordShaped items = true ->
  8 * length items <= length outcomes ->
  let w' := run (PostRestore (restoreBody items false)
                 :: List.map (Settle (nextId w)) outcomes) w in
  pending w' = ∅ /\ completed items (restoreStatus w').
Proof.
  intros Hkey Hrun Hp Hshape Hlen w'. subst w'.
  rewrite run_cons, (step_restore_plain items w Hkey Hrun).
  set (w0 := {| SELLER_KEY := SELLER_KEY w; restoreStatus := resetStatus (length items);
                pending := pending w; nextId := S (nextId w); upstream := upstream w |}).
  pose proof (for_head_progress items 0 (resetStatus (length items)) Hshape eq_refl
                eq_refl eq_refl eq_refl (Nat.le_0_l _)) as F.
  pose proof (restoreStatus_install (nextId w) items
                (for_head items 0 (resetStatus (length items))) w0) as S.
  destruct (for_head items 0 (resetStatus (length items))) as [st' p'|st'];
    cbn [status_of] in S.
  - destruct F as [F1 F2].
    apply (drive_to_completion (8 * length items) outcomes _ (nextId w)
             {| licenses := items; point := p' |}); cbn [licenses point].
    + cbn. rewrite Hp. apply insert_empty.
    + exact Hshape.
    + rewrite S. exact F1.
    + lia.
    + exact Hlen.
  - rewrite run_settle_idle.
    + split; [cbn; rewrite Hp; apply delete_empty|]. rewrite S. exact F.
    + cbn. rewrite Hp. apply delete_empty.
Qed.

(** X7: whatever text is uploaded, the records [parseBackupText] finds in
    it can be restored: on a server with a seller key and nothing running,
    a restore of them (no wipe, no stop, no other request) reads every
    record without an exception and, after at most eight settlings per
    record, ends with nothing suspended, [running] false, no error,
    'Complete', [processed] and [total] both the number of records, and
    the outcomes counted no more than that number. *)
Theorem parsed_text_restores (content : jsstring) (outcomes : list Outcome) (w : World) :
  keyLoaded (SELLER_KEY w) = true ->
  running (restoreStatus w) = false ->
  pending w = ∅ ->
  exists items : list JSValue,
    parseBackupText (VStr content) = Normal items
    /\ (8 * length items <= length outcomes ->
        let w' := run (PostRestore (restoreBody items false)
                       :: List.map (Settle (nextId w)) outcomes) w in
        let st := restoreStatus w' in
        pending w' = ∅
        /\ running st = false /\ error st = None
        /\ currentKey st = VStr (lit "Complete")
        /\ processed st = length items /\ total st = length items
        /\ success st + skipped st + failed st <= length items).
Proof.
  intros Hkey Hrun Hp.
  destruct (parseBackupText_shaped content) as (items & Hparse & _ & Hshape).
  exists items. split; [exact Hparse|]. intros Hlen w' st. subst st w'.
  destruct (restore_completes items outcomes w Hkey Hrun Hp Hshape Hlen)
    as (Hdone & C1 & C2 & C3 & C4 & C5).
  assert (solo_ok (step (PostRestore (restoreBody items false)) w)) as Hsolo.
  { rewrite (step_restore_plain items w Hkey Hrun).
    apply install_solo_ok; [now left|]. apply for_head_ok; cbn; lia. }
  pose proof (solo_counts_ok _
                (run_solo_ok _ _ (orderly_settles (nextId w) outcomes _) Hsolo))
    as [Hc1 Hc2].
  rewrite run_cons in *. repeat split; auto. lia.
Qed.

End TextRestoreFacts.

Lemma parsed_text_restores_witness :
  let w' := @run exampleHost
              (PostRestore (restoreBody [dataRecord] false)
               :: List.map (Settle (nextId connected)) (repeat replyOk 8)) connected in
  @parseBackupText exampleHost (VStr (lit "Soryn-AAAAA-BBBBB  Used  2")) = Normal [dataRecord]
  /\ pending w' = ∅
  /\ running (restoreStatus w') = false
  /\ processed (restoreStatus w') = 1.
Proof.
  destruct (@parsed_text_restores exampleHost (lit "Soryn-AAAAA-BBBBB  Used  2")
              (repeat replyOk 8) connected eq_refl eq_refl eq_refl)
    as (items & H & K).
  assert (items = [dataRecord]) as ->.
  { assert (@parseBackupText exampleHost (VStr (lit "Soryn-AAAAA-BBBBB  Used  2"))
            = Normal [dataRecord]) as E by (vm_compute; reflexivity).
    rewrite E in H. now injection H. }
  destruct (K ltac:(cbn; lia)) as (K1 & K2 & _ & _ & K3 & _).
  intros w'. split; [exact H|]. split; [exact K1|]. split; [exact K2|exact K3].
Defined.

(** ** The forwarding routes *)

Section ForwardFacts.

Context {host : Host}.

Lemma connectedOnly_off (key : option jsstring) (c : Completion Proc) :
  keyLoaded key = false -> connectedOnly key c = Reply (failure (lit "Not connected")).
Proof. intros H. unfold connectedOnly. now rewrite H. Qed.

(** X8: without a seller key ([null] or empty) every forwarding route,
    the restore route of [server.js] included, replies 'Not connected' and
    calls nothing, whatever the request; the restore route with the
    snapshot does the same and leaves the call log and the suspended
    invocations alone. *)
Theorem not_connected_no_call
    (now : jsstring) (route : option jsstring -> JSValue -> Proc)
    (key : option jsstring) (body : JSValue) (inputs : list Input) (w : World) :
  In route (proxyRoutes now) ->
  keyLoaded key = false ->
  keyLoaded (SELLER_KEY w) = false ->
  perform (route key body) inputs = ([], Some (failure (lit "Not connected")))
  /\ snd (post_restore body w) = RFailure (lit "Not connected")
  /\ upstream (fst (post_restore body w)) = upstream w
  /\ pending (fst (post_restore body w)) = pending w.
Proof.
  intros Hin Hkey Hw. split.
  - assert (route key body = Reply (failure (lit "Not connected"))) as ->;
      [|reflexivity].
    cbn in Hin.
    repeat (destruct Hin as [<-|Hin];
            [first [apply connectedOnly_off; exact Hkey
                   |unfold relay; apply connectedOnly_off; exact Hkey]|]).
    contradiction.
  - unfold post_restore, checkRestore. rewrite Hw. cbn. auto.
Qed.

Ltac ff := cbn [mbind completion_bind guarded failFast awaitCall].

Ltac ff_auto :=
  repeat first
    [ exact I
    | match goal with
      | |- failFast (guarded (mbind _ ?c)) => destruct c; ff
      | |- failFast (guarded (if ?b then _ else _)) => destruct b; ff
      | |- failFast (guarded (Normal _)) => ff
      | |- failFast (guarded (Throw _)) => ff
      | |- failFast (Call _ _) => ff
      | |- failFast (CallAll _ _ _) => ff
      | |- failFast (guarded (relayed ?r)) => unfold relayed
      | |- _ /\ _ => split; [intros; reflexivity|intros]
      | |- forall _, _ => intro
      end ].

Lemma failFast_connectedOnly (key : option jsstring) (c : Completion Proc) :
  failFast (guarded c) -> failFast (connectedOnly key c).
Proof. intros H. unfold connectedOnly. destruct (negb _); [exact I|exact H]. Qed.

(** X9: in every forwarding route of the panel, a call that fails (no
    connection, or a reply that is not JSON) ends the route at once: the
    reply is [{ success: false, error }] with the message of that failure,
    and no further call is made. *)
Theorem forward_routes_fail_fast
    (now : jsstring) (route : option jsstring -> JSValue -> Proc)
    (key : option jsstring) (body : JSValue) :
  In route (forwardRoutes now) ->
  failFast (route key body).
Proof.
  intros Hin. cbn in Hin.
  repeat (destruct Hin as [<-|Hin]; [|]); try contradiction;
    unfold get_licenses, get_users, post_generate, post_wipe_licenses,
      post_wipe_unused, post_wipe_used, post_wipe_users, post_wipe_full,
      post_license_ban, post_license_unban, post_license_delete, post_reset_hwid,
      post_user_delete, get_backup, relay;
    apply failFast_connectedOnly; ff_auto.
Qed.

End ForwardFacts.

Lemma forward_routes_fail_fast_witness :
  failFast (@post_license_ban exampleHost (Some (lit "seller"))
              (VObj [(lit "key", VStr (lit "Soryn-A"))])).
Proof.
  apply (@forward_routes_fail_fast exampleHost [] (@post_license_ban exampleHost)).
  cbn. tauto.
Defined.

Lemma not_connected_no_call_witness :
  perform (@get_licenses exampleHost None VUndefined) [Settled replyOk]
  = ([], Some (failure (lit "Not connected"))).
Proof.
  apply (@not_connected_no_call exampleHost [] (@get_licenses exampleHost) None VUndefined
           [Settled replyOk]
           {| SELLER_KEY := None; restoreStatus := initialStatus; pending := ∅;
              nextId := 0; upstream := [] |}).
  - cbn. tauto.
  - reflexivity.
  - reflexivity.
Defined.

Section VerdictFacts.

Context {host : Host}.

Lemma newQuery_ok (key : option jsstring) (fields : Query) :
  forallb (fun f => stringifies (snd f)) fields = true ->
  newQuery key fields = Normal ((lit "sellerkey", VStr (default [] key)) :: fields).
Proof.
  intros H. unfold newQuery. cbn [List.find snd stringifies negb].
  induction fields as [|f fields IH]; [reflexivity|].
  cbn in H. apply andb_prop in H as [Hf Hfs]. cbn [List.find]. rewrite Hf. cbn [negb].
  specialize (IH Hfs). destruct (List.find _ fields); [discriminate|reflexivity].
Qed.

Lemma connectedOnly_on (key : option jsstring) (c : Completion Proc) :
  keyLoaded key = true -> connectedOnly key c = guarded c.
Proof. intros H. unfold connectedOnly. now rewrite H. Qed.

(** X10: the seven routes that make a single call (the four partial wipes,
    license delete, HWID reset, user delete) never alter its verdict: once
    such a route has made its call, a reply that is an object, whatever it
    says, is answered with exactly its [success] and [message], and no
    second call is made. *)
Theorem relay_routes_pass_verdict
    (route : option jsstring -> JSValue -> Proc) (key : option jsstring)
    (body : JSValue) (q : Query) (k : Outcome -> Proc)
    (response s m : JSValue) :
  In route relayRoutes ->
  route key body = Call q k ->
  getProp response (lit "success") = Normal s ->
  getProp response (lit "message") = Normal m ->
  k (Resolved response) = Reply (VObj [(lit "success", s); (lit "message", m)]).
Proof.
  intros Hin Hcall Hs Hm.
  assert (exists fields, route key body = relay key fields) as [fields E].
  { cbn in Hin. repeat (destruct Hin as [<-|Hin]; [eexists; reflexivity|]).
    contradiction. }
  rewrite E in Hcall. unfold relay, connectedOnly in Hcall.
  destruct (negb (keyLoaded key)); [discriminate|].
  destruct fields as [fs|e]; [|discriminate]. cbn [mbind completion_bind] in Hcall.
  destruct (newQuery key fs) as [q'|e]; [|discriminate].
  cbn [mbind completion_bind guarded] in Hcall. unfold awaitCall in Hcall.
  injection Hcall as _ <-. unfold relayed. now rewrite Hs, Hm.
Qed.

(** X11: the full wipe reports success whatever the licensing service
    replies to its two calls, refusals included: it deletes all keys, then
    all users, reads nothing from either reply and answers
    [{ success: true, message: 'Full wipe complete' }]. *)
Theorem full_wipe_always_succeeds
    (key : option jsstring) (body first second : JSValue) :
  keyLoaded key = true ->
  perform (post_wipe_full key body) [Settled (Resolved first); Settled (Resolved second)]
  = ([ [(lit "sellerkey", VStr (default [] key)); (lit "type", VStr (lit "delallkeys"))];
       [(lit "sellerkey", VStr (default [] key)); (lit "type", VStr (lit "delallusers"))] ],
     Some (VObj [(lit "success", VBool true);
                 (lit "message", VStr (lit "Full wipe complete"))])).
Proof.
  intros Hkey. unfold post_wipe_full. rewrite (connectedOnly_on _ _ Hkey).
  rewrite !newQuery_ok by reflexivity. reflexivity.
Qed.

(** X12: the two listing routes do not look at the verdict of the
    licensing service: for every reply that is not [null], a refusal
    included, the answer is [success: true] with the [keys] (or [users]) of
    the reply if that is truthy and an empty list otherwise. *)
Theorem listing_routes_ignore_verdict
    (key : option jsstring) (body response keys users : JSValue) :
  keyLoaded key = true ->
  getProp response (lit "keys") = Normal keys ->
  getProp response (lit "users") = Normal users ->
  perform (get_licenses key body) [Settled (Resolved response)]
  = ([ [(lit "sellerkey", VStr (default [] key)); (lit "type", VStr (lit "fetchallkeys"))] ],
     Some (VObj [(lit "success", VBool true);
                 (lit "licenses", or_else keys (VArr []))]))
  /\ perform (get_users key body) [Settled (Resolved response)]
     = ([ [(lit "sellerkey", VStr (default [] key));
           (lit "type", VStr (lit "fetchallusers"))] ],
        Some (VObj [(lit "success", VBool true);
                    (lit "users", or_else users (VArr []))]))
  /\ truthy (or_else keys (VArr [])) = true
  /\ truthy (or_else users (VArr [])) = true.
Proof.
  intros Hkey Hk Hu. unfold get_licenses, get_users.
  rewrite !(connectedOnly_on _ _ Hkey), !newQuery_ok by reflexivity.
  cbn [mbind completion_bind guarded awaitCall perform fst snd].
  rewrite Hk, Hu. cbn [mbind completion_bind guarded perform].
  repeat split; unfold or_else.
  - now destruct (truthy keys) eqn:E.
  - now destruct (truthy users) eqn:E.
Qed.

(** X13: banning a license makes two calls in this order, [ban] for the key
    and [banuser] with the same key as user name and the same reason (empty
    if none is given), and the answer is the verdict of the first call
    alone: the reply to the user ban is not read. *)
Theorem ban_reports_license_verdict
    (key : option jsstring) (body k reason first second s m : JSValue) :
  keyLoaded key = true ->
  getProp body (lit "key") = Normal k ->
  getProp body (lit "reason") = Normal reason ->
  stringifies k = true ->
  stringifies (or_else reason (VStr [])) = true ->
  getProp first (lit "success") = Normal s ->
  getProp first (lit "message") = Normal m ->
  perform (post_license_ban key body) [Settled (Resolved first); Settled (Resolved second)]
  = ([ [(lit "sellerkey", VStr (default [] key)); (lit "type", VStr (lit "ban"));
        (lit "key", k); (lit "reason", or_else reason (VStr []))];
       [(lit "sellerkey", VStr (default [] key)); (lit "type", VStr (lit "banuser"));
        (lit "user", k); (lit "reason", or_else reason (VStr []))] ],
     Some (VObj [(lit "success", s); (lit "message", m)])).
Proof.
  intros Hkey Hk Hr Hsk Hsr Hs Hm. unfold post_license_ban.
  rewrite (connectedOnly_on _ _ Hkey), Hk, Hr. cbn [mbind completion_bind].
  rewrite !newQuery_ok by (cbn [forallb snd stringifies]; now rewrite Hsk, Hsr).
  cbn [mbind completion_bind guarded awaitCall perform fst snd].
  unfold relayed. rewrite Hs, Hm. reflexivity.
Qed.

(** X14: the generate route fills in a missing mask, level and amount
    ('Soryn-XXXXX-XXXXX', '1', '1') but not a missing duration: without a
    [duration] in the body (or with [null]) it replies with the error of
    [duration.toString()] and makes no call; with a primitive duration
    alone it makes exactly one call, with the three defaults and the owner
    'Soryn', however that call is answered. *)
Theorem generate_needs_duration
    (key : option jsstring) (body duration : JSValue) :
  keyLoaded key = true ->
  getProp body (lit "duration") = Normal duration ->
  (duration = VUndefined \/ duration = VNull ->
   forall inputs,
     perform (post_generate key body) inputs
     = ([], Some (failure (typeError duration (lit "toString")))))
  /\ (primitive duration = true -> duration <> VUndefined -> duration <> VNull ->
      getProp body (lit "amount") = Normal VUndefined ->
      getProp body (lit "level") = Normal VUndefined ->
      getProp body (lit "mask") = Normal VUndefined ->
      forall o,
        fst (perform (post_generate key body) [Settled o])
        = [ [(lit "sellerkey", VStr (default [] key)); (lit "type", VStr (lit "add"));
             (lit "expiry", duration); (lit "mask", VStr (lit "Soryn-XXXXX-XXXXX"));
             (lit "level", VStr (lit "1")); (lit "amount", VStr (lit "1"));
             (lit "owner", VStr (lit "Soryn"))] ]).
Proof.
  intros Hkey Hd. unfold post_generate. rewrite (connectedOnly_on _ _ Hkey), Hd.
  assert (exists a l m, getProp body (lit "amount") = Normal a
                        /\ getProp body (lit "level") = Normal l
                        /\ getProp body (lit "mask") = Normal m) as (a & l & m & Ha & Hl & Hm).
  { destruct body; try discriminate; do 3 eexists; repeat split; reflexivity. }
  split.
  - intros Hnone inputs. rewrite Ha, Hl, Hm. cbn [mbind completion_bind].
    destruct Hnone as [-> | ->]; reflexivity.
  - intros Hprim Hu Hn Ha' Hl' Hm' o. rewrite Ha', Hl', Hm'. cbn [mbind completion_bind].
    assert (call_toString duration = Normal duration) as ->.
    { destruct duration; try discriminate; try reflexivity; congruence. }
    cbn [mbind completion_bind or_else truthy].
    rewrite newQuery_ok
      by (cbn [forallb snd stringifies]; now rewrite (primitive_stringifies _ Hprim)).
    cbn [mbind completion_bind guarded awaitCall perform fst snd].
    f_equal. destruct o as [v|e]; [|reflexivity].
    destruct (getProp v (lit "success")) as [ok|]; [|reflexivity].
    cbn [mbind completion_bind]. destruct (truthy ok).
    + destruct (getProp v (lit "keys")); [|reflexivity]. cbn [mbind completion_bind].
      destruct (getProp v (lit "key")); reflexivity.
    + destruct (getProp v (lit "message")); reflexivity.
Qed.

End VerdictFacts.

Lemma relay_routes_pass_verdict_witness :
  exists (q : Query) (k : Outcome -> Proc),
    @post_user_delete exampleHost sellerKey (VObj [(lit "username", VStr (lit "bob"))])
    = Call q k
    /\ k (Resolved refusal)
       = Reply (VObj [(lit "success", VBool false);
                      (lit "message", VStr (lit "Seller key is invalid"))]).
Proof.
  eexists _, _. split; [reflexivity|].
  refine (@relay_routes_pass_verdict exampleHost (@post_user_delete exampleHost) sellerKey
            (VObj [(lit "username", VStr (lit "bob"))]) _ _ refusal
            (VBool false) (VStr (lit "Seller key is invalid")) _ eq_refl eq_refl eq_refl).
  cbn. tauto.
Defined.

Lemma full_wipe_always_succeeds_witness :
  snd (perform (@post_wipe_full exampleHost sellerKey VUndefined)
         [Settled (Resolved refusal); Settled (Resolved refusal)])
  = Some (VObj [(lit "success", VBool true);
                (lit "message", VStr (lit "Full wipe complete"))]).
Proof.
  exact (f_equal snd (@full_wipe_always_succeeds exampleHost sellerKey VUndefined
                        refusal refusal eq_refl)).
Defined.

Lemma listing_routes_ignore_verdict_witness :
  snd (perform (@get_licenses exampleHost sellerKey VUndefined) [Settled (Resolved refusal)])
  = Some (VObj [(lit "success", VBool true); (lit "licenses", VArr [])]).
Proof.
  exact (f_equal snd (proj1 (@listing_routes_ignore_verdict exampleHost sellerKey
                               VUndefined refusal VUndefined VUndefined
                               eq_refl eq_refl eq_refl))).
Defined.

Lemma ban_reports_license_verdict_witness :
  snd (perform (@post_license_ban exampleHost sellerKey
                  (VObj [(lit "key", VStr (lit "Soryn-A"))]))
         [Settled replyOk; Settled (Resolved refusal)])
  = Some (VObj [(lit "success", VBool true); (lit "message", VUndefined)]).
Proof.
  exact (f_equal snd
           (@ban_reports_license_verdict exampleHost sellerKey
              (VObj [(lit "key", VStr (lit "Soryn-A"))]) (VStr (lit "Soryn-A")) VUndefined
              (VObj [(lit "success", VBool true)]) refusal (VBool true) VUndefined
              eq_refl eq_refl eq_refl eq_refl eq_refl eq_refl eq_refl)).
Defined.

Lemma generate_needs_duration_witness :
  perform (@post_generate exampleHost sellerKey (VObj [(lit "amount", VNum 5)]))
    [Settled replyOk]
  = ([], Some (failure (@typeError exampleHost VUndefined (lit "toString")))).
Proof.
  apply (proj1 (@generate_needs_duration exampleHost sellerKey
                  (VObj [(lit "amount", VNum 5)]) VUndefined eq_refl eq_refl)).
  now left.
Defined.

(** ** The backup document, the replies of the two services *)

Section BackupFacts.

Context {host : Host}.

(** X15: a backup made by [/api/backup] and handed back to
    [/api/parse-backup] gives the licenses of the backup: the backup route
    answers two replies that are not [null] with the document
    [backupDocument], both calls made before either reply is read; and if
    the uploaded content parses to that document, the parse route answers
    with the document's licenses (the [keys] of the first reply, or an empty
    list), unfiltered, under the tag 'json'. *)
Theorem backup_round_trip
    (now : jsstring) (key : option jsstring)
    (body keysResponse usersResponse keys users upload content : JSValue) :
  keyLoaded key = true ->
  getProp keysResponse (lit "keys") = Normal keys ->
  getProp usersResponse (lit "users") = Normal users ->
  getProp upload (lit "content") = Normal content ->
  JSON_parse content = Some (backupDocument now keys users) ->
  perform (get_backup now key body) [SettledAll (AllResolved keysResponse usersResponse)]
  = ([ [(lit "sellerkey", VStr (default [] key)); (lit "type", VStr (lit "fetchallkeys"))];
       [(lit "sellerkey", VStr (default [] key)); (lit "type", VStr (lit "fetchallusers"))] ],
     Some (VObj [(lit "success", VBool true);
                 (lit "backup", backupDocument now keys users)]))
  /\ post_parse_backup upload = RLicenses (or_else keys (VArr [])) (lit "json").
Proof.
  intros Hkey Hk Hu Hc Hj. split.
  - unfold get_backup. rewrite (connectedOnly_on _ _ Hkey).
    rewrite !newQuery_ok by reflexivity.
    cbn [mbind completion_bind guarded perform fst snd].
    rewrite Hk, Hu. reflexivity.
  - unfold post_parse_backup. rewrite Hc, Hj.
    unfold extractLicenses, backupDocument.
    cbn [getProp lookupProp mbind completion_bind].
    replace (JsString.eqb (lit "exportDate") (lit "licenses")) with false
      by (vm_compute; reflexivity).
    replace (JsString.eqb (lit "appName") (lit "licenses")) with false
      by (vm_compute; reflexivity).
    replace (JsString.eqb (lit "licenses") (lit "licenses")) with true
      by (vm_compute; reflexivity).
    assert (truthy (or_else keys (VArr [])) = true) as ->; [|reflexivity].
    unfold or_else. now destruct (truthy keys) eqn:E.
Qed.

(** X16: when the body of a reply of the licensing service is not JSON,
    [makeKeyAuthRequest] rejects with 'Invalid response: ' followed by the
    first 200 units of the body, so with at most 218 units in all and with
    the whole body when that is no longer than 200; otherwise it resolves
    with the parsed body. *)
Theorem decodeReply_bounded (data : jsstring) :
  match decodeReply data with
  | Resolved json => JSON_parse (VStr data) = Some json
  | Rejected message =>
      JSON_parse (VStr data) = None
      /\ length message <= 218
      /\ JsString.startsWith message (lit "Invalid response: ") = true
      /\ (exists rest, data = drop 18 message ++ rest)
      /\ (length data <= 200 -> message = lit "Invalid response: " ++ data)
  end.
Proof.
  unfold decodeReply. destruct (JSON_parse (VStr data)) as [json|]; [reflexivity|].
  split; [reflexivity|]. split; [|split; [|split]].
  - rewrite length_app, length_take.
    change (length (lit "Invalid response: ")) with 18. lia.
  - apply JsStringFacts.startsWith_app.
  - exists (drop 200 data).
    change (drop 18 (lit "Invalid response: " ++ take 200 data)) with (take 200 data).
    now rewrite take_drop.
  - intros H. now rewrite take_ge.
Qed.


End BackupFacts.

Lemma backup_round_trip_witness :
  let doc := backupDocument (lit "2024-01-15T00:00:00.000Z")
               (VArr [keyed "Soryn-A"]) VUndefined in
  let h := asciiHost (fun _ => Some doc) in
  @post_parse_backup h (VObj [(lit "content", VStr (lit "(the backup)"))])
  = RLicenses (VArr [keyed "Soryn-A"]) (lit "json").
Proof.
  intros doc h.
  exact (proj2 (@backup_round_trip h (lit "2024-01-15T00:00:00.000Z") sellerKey VUndefined
                  (VObj [(lit "success", VBool true); (lit "keys", VArr [keyed "Soryn-A"])])
                  (VObj [(lit "success", VBool false)])
                  (VArr [keyed "Soryn-A"]) VUndefined
                  (VObj [(lit "content", VStr (lit "(the backup)"))])
                  (VStr (lit "(the backup)"))
                  eq_refl eq_refl eq_refl eq_refl eq_refl)).
Defined.

(** ** The restore route of [server.js] *)

Section SimpleRestoreFacts.

Context {host : Host}.

Lemma simpleCount_one (o : Outcome) (c : Simple.Counters) :
  counted (simpleCount o c) = S (counted c).
Proof.
  unfold simpleCount, counted. destruct o as [result|m]; [|cbn; lia].
  destruct (getProp result (lit "success")) as [ok|]; cbn [mbind completion_bind];
    [|cbn; lia].
  destruct (truthy ok); [cbn; lia|].
  destruct (getProp result (lit "message")) as [message|]; cbn [mbind completion_bind];
    [|cbn; lia].
  destruct (truthy message); [|cbn; lia].
  destruct (call_toLowerCase message) as [msg|]; cbn [mbind completion_bind];
    [|cbn; lia].
  destruct (JsString.includes msg (lit "already")); cbn; lia.
Qed.

Lemma recordQuery_shaped (key : option jsstring) (license : JSValue) :
  recordShaped license = true ->
  exists k d l,
    readLicense license = Normal (k, d, l)
    /\ makeParams k d l = Normal (AddKey k d l)
    /\ recordQuery key license = Some (queryOfCall key (AddKey k d l)).
Proof.
  intros H. destruct (readLicense_shaped license H) as (k & d & l & H1 & H2).
  exists k, d, l. unfold recordQuery. now rewrite H1, H2.
Qed.

Lemma simple_loop_counts (key : option jsstring) (items : list JSValue) :
  forall (outcomes : list Outcome) (c : Simple.Counters),
    forallb recordShaped items = true ->
    length outcomes = length items ->
    exists calls,
      perform (simple_loop key items c) (paced outcomes)
      = (calls, Some (simpleSummary (fold_left (fun c o => simpleCount o c) outcomes c)))
      /\ List.map Some calls = List.map (recordQuery key) items
      /\ counted (fold_left (fun c o => simpleCount o c) outcomes c)
         = counted c + length items.
Proof.
  induction items as [|license items IH]; intros outcomes c Hshape Hlen.
  - destruct outcomes; [|discriminate]. exists []. cbn. repeat split; lia.
  - destruct outcomes as [|o outcomes]; [discriminate|].
    cbn in Hshape. apply andb_prop in Hshape as [Hs Hshape]. injection Hlen as Hlen.
    destruct (recordQuery_shaped key license Hs) as (k & d & l & H1 & H2 & H3).
    destruct (IH outcomes (simpleCount o c) Hshape Hlen) as (calls & Hp & Hc & Hn).
    exists (queryOfCall key (AddKey k d l) :: calls).
    cbn [simple_loop]. rewrite H1. cbn [mbind completion_bind fst snd]. rewrite H2.
    cbn [mbind completion_bind guarded paced flat_map app perform].
    fold (paced outcomes). rewrite Hp. cbn [fst snd fold_left List.map].
    rewrite H3, Hc, Hn, simpleCount_one. repeat split; cbn [length]; lia.
Qed.

(** X18: the restore route of [server.js], on a list of well-formed
    records (seller key loaded, no wipe), makes exactly one create call per
    record, in the order of the list, and replies after the last one with
    counters that add up to the number of records: every record is counted
    as added, skipped or failed, whatever the calls were answered
    (a rate-limit reply and a thrown error count as failed). *)
Theorem simple_restore_counts_every_record
    (key : option jsstring) (body wipeFirst : JSValue) (items : list JSValue)
    (outcomes : list Outcome) :
  keyLoaded key = true ->
  getProp body (lit "licenses") = Normal (VArr items) ->
  getProp body (lit "wipeFirst") = Normal wipeFirst ->
  truthy wipeFirst = false ->
  forallb recordShaped items = true ->
  length outcomes = length items ->
  exists (calls : list Query) (c : Simple.Counters),
    perform (simple_restore key body) (paced outcomes) = (calls, Some (simpleSummary c))
    /\ List.map Some calls = List.map (recordQuery key) items
    /\ Simple.success c + Simple.failed c + Simple.skipped c = length items.
Proof.
  intros Hkey Hl Hw Hwf Hshape Hlen.
  destruct (simple_loop_counts key items outcomes
              {| Simple.success := 0; Simple.failed := 0; Simple.skipped := 0 |}
              Hshape Hlen) as (calls & Hp & Hc & Hn).
  exists calls, (fold_left (fun c o => simpleCount o c) outcomes
                   {| Simple.success := 0; Simple.failed := 0; Simple.skipped := 0 |}).
  unfold simple_restore. rewrite (connectedOnly_on _ _ Hkey), Hl, Hw.
  cbn [mbind completion_bind truthy isArray negb orb arrayItems]. rewrite Hwf.
  cbn [guarded]. split; [exact Hp|]. split; [exact Hc|exact Hn].
Qed.

Lemma simple_loop_aborts (key : option jsstring) (good : list JSValue) :
  forall (bad : JSValue) (rest : list JSValue) (m : jsstring)
         (outcomes : list Outcome) (more : list Input) (c : Simple.Counters),
    forallb recordShaped good = true ->
    readLicense bad = Throw m ->
    length outcomes = length good ->
    exists calls,
      perform (simple_loop key (good ++ bad :: rest) c) (paced outcomes ++ more)
      = (calls, Some (failure m))
      /\ List.map Some calls = List.map (recordQuery key) good.
Proof.
  induction good as [|license good IH]; intros bad rest m outcomes more c Hshape Hbad Hlen.
  - destruct outcomes; [|discriminate]. exists [].
    cbn [app simple_loop]. rewrite Hbad. split; reflexivity.
  - destruct outcomes as [|o outcomes]; [discriminate|].
    cbn in Hshape. apply andb_prop in Hshape as [Hs Hshape]. injection Hlen as Hlen.
    destruct (recordQuery_shaped key license Hs) as (k & d & l & H1 & H2 & H3).
    destruct (IH bad rest m outcomes more (simpleCount o c) Hshape Hbad Hlen)
      as (calls & Hp & Hc).
    exists (queryOfCall key (AddKey k d l) :: calls).
    cbn [app simple_loop]. rewrite H1. cbn [mbind completion_bind fst snd]. rewrite H2.
    cbn [mbind completion_bind guarded paced flat_map app perform].
    fold (paced outcomes). rewrite Hp. cbn [fst snd List.map]. now rewrite H3, Hc.
Qed.

(** X19: in the restore route of [server.js] a record that cannot be read
    (a [null] entry, or one with neither a string key nor a duration) ends
    the whole request: the create calls of the records before it have been
    made, none is made for it or for the records after it, and the reply is
    only the error, without the counts of what was already restored. *)
Theorem simple_restore_aborts_on_bad_record
    (key : option jsstring) (body wipeFirst bad : JSValue) (good rest : list JSValue)
    (m : jsstring) (outcomes : list Outcome) (more : list Input) :
  keyLoaded key = true ->
  getProp body (lit "licenses") = Normal (VArr (good ++ bad :: rest)) ->
  getProp body (lit "wipeFirst") = Normal wipeFirst ->
  truthy wipeFirst = false ->
  forallb recordShaped good = true ->
  readLicense bad = Throw m ->
  length outcomes = length good ->
  exists calls : list Query,
    perform (simple_restore key body) (paced outcomes ++ more) = (calls, Some (failure m))
    /\ List.map Some calls = List.map (recordQuery key) good.
Proof.
  intros Hkey Hl Hw Hwf Hshape Hbad Hlen.
  destruct (simple_loop_aborts key good bad rest m outcomes more
              {| Simple.success := 0; Simple.failed := 0; Simple.skipped := 0 |}
              Hshape Hbad Hlen) as (calls & Hp & Hc).
  exists calls. unfold simple_restore. rewrite (connectedOnly_on _ _ Hkey), Hl, Hw.
  cbn [mbind completion_bind truthy isArray negb orb arrayItems]. rewrite Hwf.
  cbn [guarded]. split; [exact Hp|exact Hc].
Qed.

End SimpleRestoreFacts.

Lemma simple_restore_counts_every_record_witness :
  let items := [keyed "Soryn-A"; keyed "Soryn-B"; keyed "Soryn-C"] in
  let body := VObj [(lit "licenses", VArr items)] in
  let outcomes :=
    [replyOk; Rejected (lit "socket hang up"); replyFailure "Key already exists"] in
  exists (calls : list Query) (c : Simple.Counters),
    perform (@simple_restore exampleHost sellerKey body) (paced outcomes)
    = (calls, Some (simpleSummary c))
    /\ List.map Some calls = List.map (@recordQuery exampleHost sellerKey) items
    /\ Simple.success c + Simple.failed c + Simple.skipped c = 3.
Proof.
  intros items body outcomes.
  exact (@simple_restore_counts_every_record exampleHost sellerKey body VUndefined items
           outcomes eq_refl eq_refl eq_refl eq_refl eq_refl eq_refl).
Defined.

Lemma simple_restore_aborts_on_bad_record_witness :
  let body := VObj [(lit "licenses", VArr [keyed "Soryn-A"; VNull; keyed "Soryn-C"])] in
  exists calls : list Query,
    perform (@simple_restore exampleHost sellerKey body) (paced [replyOk] ++ [])
    = (calls, Some (failure (@typeError exampleHost VNull (lit "key"))))
    /\ List.map Some calls = List.map (@recordQuery exampleHost sellerKey) [keyed "Soryn-A"].
Proof.
  intros body.
  exact (@simple_restore_aborts_on_bad_record exampleHost sellerKey body VUndefined VNull
           [keyed "Soryn-A"] [keyed "Soryn-C"] _ [replyOk] []
           eq_refl eq_refl eq_refl eq_refl eq_refl eq_refl eq_refl).
Defined.

(** ** A restore whose calls are all accepted *)

Section AcceptedFacts.

Context {host : Host}.

Lemma recordCall_shaped (items : list JSValue) (j : nat) (license : JSValue) :
  forallb recordShaped items = true ->
  items !! j = Some license ->
  exists key duration level,
    readLicense license = Normal (key, duration, level)
    /\ makeParams key duration level = Normal (AddKey key duration level)
    /\ recordCall license = Some (AddKey key duration level).
Proof.
  intros Hshape Hl.
  assert (recordShaped license = true) as Hs.
  { rewrite forallb_forall in Hshape. apply Hshape.
    apply list_elem_of_In. eapply list_elem_of_lookup_2, Hl. }
  destruct (readLicense_shaped license Hs) as (key & duration & level & H1 & H2).
  exists key, duration, level. unfold recordCall. now rewrite H1, H2.
Qed.

Lemma for_head_smooth (items : list JSValue) (before : list UpstreamCall) (j : nat)
    (st : RestoreStatus) (calls : list UpstreamCall) :
  forallb recordShaped items = true ->
  running st = true ->
  smooth items before j j st calls ->
  smooth_step items before (for_head items j st) calls.
Proof.
  intros Hshape Hrun (H1 & H2 & H3 & H4 & H5 & cs & Hc & Hm). unfold for_head.
  destruct (j <? length items) eqn:E.
  - apply Nat.ltb_lt in E. rewrite Hrun. cbn [negb].
    destruct (lookup_lt_is_Some_2 items j E) as [license Hl]. rewrite Hl.
    change (default VUndefined (Some license)) with license.
    destruct (recordCall_shaped items j license Hshape Hl)
      as (key & duration & level & -> & -> & Hr).
    unfold while_head. cbn [Z.ltb Z.compare andb negb smooth_step issued option_list].
    split; [exact Hrun|]. cbn [smooth_at]. unfold smooth. cbn.
    repeat split; auto; [lia|].
    exists (cs ++ [AddKey key duration level]). split; [now rewrite Hc, app_assoc|].
    rewrite Nat.add_1_r, (take_S_r items j license Hl), !List.map_app, Hm.
    cbn [List.map]. now rewrite Hr.
  - apply Nat.ltb_ge in E. assert (j = length items) as -> by lia.
    cbn. split; [reflexivity|]. unfold smooth. cbn. repeat split; auto.
    exists cs. split; [exact Hc|exact Hm].
Qed.

Lemma resume_smooth (items : list JSValue) (before : list UpstreamCall) (p : Await)
    (o : Outcome) (st : RestoreStatus) (calls : list UpstreamCall) :
  forallb recordShaped items = true ->
  accepting o = true ->
  smooth_at items before p st calls ->
  smooth_step items before (resume items p o st) calls.
Proof.
  intros Hshape Ho [Hrun H]. destruct p; try contradiction; cbn [resume].
  - destruct o as [result|m]; [|discriminate]. unfold accepting in Ho.
    unfold add_verdict.
    destruct (getProp result (lit "success")) as [ok|]; [|discriminate].
    cbn [mbind completion_bind]. rewrite Ho.
    unfold while_head. rewrite andb_false_r.
    cbn [smooth_step issued option_list]. rewrite app_nil_r.
    destruct H as (H1 & H2 & H3 & H4 & H5 & Hcs).
    split; [exact Hrun|]. cbn [smooth_at]. unfold smooth. cbn.
    repeat split; auto. lia.
  - destruct ((i + 1) mod 20 =? 0).
    + cbn [smooth_step issued option_list]. rewrite app_nil_r. split; [exact Hrun|exact H].
    + apply for_head_smooth; assumption.
  - apply for_head_smooth; assumption.
Qed.

Lemma install_smooth (items : list JSValue) (before : list UpstreamCall) (id : nat)
    (s : Step) (w : World) :
  pending w = ∅ \/ (exists t, pending w = {[id := t]}) ->
  smooth_step items before s (upstream w) ->
  smooth_world items before (install id items s w).
Proof.
  intros Hp Hs. destruct s as [st p|st]; cbn in Hs.
  - right. exists id, p. split; [|exact Hs].
    cbn. destruct Hp as [->|[t ->]]; [apply insert_empty|apply insert_singleton_eq].
  - left. destruct Hs as [Hrun Hs]. split; [|split; [exact Hrun|exact Hs]].
    cbn. destruct Hp as [->|[t ->]]; [apply delete_empty|apply delete_singleton_eq].
Qed.

Lemma run_smooth (items : list JSValue) (before : list UpstreamCall) (id : nat)
    (outcomes : list Outcome) :
  forall w : World,
    forallb recordShaped items = true ->
    forallb accepting outcomes = true ->
    smooth_world items before w ->
    smooth_world items before (run (List.map (Settle id) outcomes) w).
Proof.
  induction outcomes as [|o outcomes IH]; intros w Hshape Ho Hw; [exact Hw|].
  cbn in Ho. apply andb_prop in Ho as [Ho1 Ho2].
  cbn [List.map]. rewrite run_cons, step_settle. apply IH; [exact Hshape|exact Ho2|].
  unfold settle. destruct (pending w !! id) as [t|] eqn:E; [|exact Hw].
  destruct Hw as [(Hp & _)|(id' & p & Hp & Hs)].
  - rewrite Hp in E. now rewrite lookup_empty in E.
  - rewrite Hp in E. apply lookup_singleton_Some in E as [<- <-].
    cbn [licenses point].
    apply install_smooth; [right; eauto|]. now apply resume_smooth.
Qed.

(** X20: when every create call is accepted, the restore job of the panel
    adds every record with a single call each: on a server with a seller
    key and nothing running, a restore of well-formed records (no wipe, no
    stop, no other request) whose settlings all carry a reply with a truthy
    [success] ends, after at most eight settlings per record, with
    [success] equal to the number of records, [skipped] and [failed] zero
    and no error, and the calls it added to the log are exactly the create
    calls of the records, one per record, in the order of the list. *)
Theorem accepted_restore_adds_all
    (items : list JSValue) (outcomes : list Outcome) (w : World) :
  keyLoaded (SELLER_KEY w) = true ->
  running (restoreStatus w) = false ->
  pending w = ∅ ->
  forallb recordShaped items = true ->
  forallb accepting outcomes = true ->
  8 * length items <= length outcomes ->
  let w' := run (PostRestore (restoreBody items false)
                 :: List.map (Settle (nextId w)) outcomes) w in
  let st := restoreStatus w' in
  pending w' = ∅
  /\ running st = false /\ error st = None
  /\ success st = length items /\ skipped st = 0 /\ failed st = 0
  /\ exists calls : list UpstreamCall,
       upstream w' = upstream w ++ calls
       /\ List.map Some calls = List.map recordCall items.
Proof.
  intros Hkey Hrun Hp Hshape Ho Hlen w' st. subst st w'.
  destruct (restore_completes items outcomes w Hkey Hrun Hp Hshape Hlen) as [Hdone _].
  rewrite run_cons in *.
  assert (smooth_world items (upstream w) (step (PostRestore (restoreBody items false)) w))
    as Hstart.
  { rewrite (step_restore_plain items w Hkey Hrun).
    apply install_smooth; [now left|]. cbn [upstream].
    apply for_head_smooth; [exact Hshape|reflexivity|].
    unfold smooth. cbn. repeat split; auto; [lia|].
    exists []. now rewrite app_nil_r. }
  destruct (run_smooth items (upstream w) (nextId w) outcomes _ Hshape Ho Hstart)
    as [(_ & Hr & H1 & H2 & H3 & H4 & _ & cs & Hc & Hm)|(id & p & Hpend & _)].
  - rewrite firstn_all in Hm. repeat split; auto. exists cs. split; [exact Hc|exact Hm].
  - rewrite Hpend in Hdone. exfalso. revert Hdone. apply insert_non_empty.
Qed.

End AcceptedFacts.

Lemma accepted_restore_adds_all_witness :
  let items := [keyed "Soryn-A"; keyed "Soryn-B"] in
  let w' := @run exampleHost
              (PostRestore (restoreBody items false)
               :: List.map (Settle (nextId connected)) (repeat replyOk 16)) connected in
  success (restoreStatus w') = 2
  /\ exists calls : list UpstreamCall,
       upstream w' = upstream connected ++ calls
       /\ List.map Some calls = List.map (@recordCall exampleHost) items.
Proof.
  intros items w'.
  destruct (@accepted_restore_adds_all exampleHost items (repeat replyOk 16) connected
              eq_refl eq_refl eq_refl eq_refl eq_refl ltac:(cbn; lia))
    as (_ & _ & _ & H & _ & _ & K).
  split; [exact H|exact K].
Defined.
